(** * mux: a shallow embedding of the request multiplexer of [mux.go]

    The development follows the source file top-down: the data model
    ([Mux], [muxEntry]), construction ([New]), registration ([register],
    [HandleFunc], [RegexpHandleFunc], [Mount]) and dispatch ([ServeHTTP],
    [urlWithoutSlash], [isLower], [addRegexpSubmatchesToContext]).

    Go strings are byte sequences; they are modelled by [string] (a list of
    8-bit characters), so [pattern[0]] and [pattern[len(pattern)-1]] are the
    first and last character.  A panic is an explicit error value.  The
    packages the router imports ([regexp], [unicode], [strings], [net/url])
    are interfaces (type classes below); a concrete instance covering a
    documented subset is given in [Module GoLib] and used for examples. *)

From Stdlib Require Import ZArith Ascii String Lia.
From stdpp Require Import base option list gmap strings fin_maps.

Local Open Scope Z_scope.

(** ** Strings as byte sequences *)

Definition slash : ascii := "/"%char.

(** [pattern[0]]: the first byte, [None] on the empty string (where Go
    raises an index-out-of-range panic). *)
Definition first_byte (s : string) : option ascii :=
  match s with
  | EmptyString => None
  | String c _ => Some c
  end.

(** [splitLast s] is [(s[:len(s)-1], s[len(s)-1])], [None] on the empty
    string (index [-1] is out of range). *)
Fixpoint splitLast (s : string) : option (string * ascii) :=
  match s with
  | EmptyString => None
  | String c s' =>
      match splitLast s' with
      | None => Some (EmptyString, c)
      | Some (init, l) => Some (String c init, l)
      end
  end.

Definition last_byte (s : string) : option ascii := snd <$> splitLast s.

(** ** Panics *)

Inductive PanicMsg : Type :=
  | PNilNotFound                        (* "mux: nil notFound" *)
  | PInvalidPattern                     (* "mux: invalid pattern" *)
  | PMustBeginWithSlash                 (* "mux: pattern must begin with \"/\"" *)
  | PMustNotEndWithSlash                (* "mux: pattern must not end with \"/\"" *)
  | PNilHandler                         (* "mux: nil handler" *)
  | PMultipleRegistrations (pattern : string)
                                        (* "mux: multiple registrations for " + pattern *)
  | PRegexpCompile (pattern : string)   (* regexp.MustCompile panics *)
  | PIndexOutOfRange                    (* runtime error: index out of range *)
  | PNilFuncCall.                       (* call of a nil func value *)

(** The result of code that may panic. *)
Definition Go (A : Type) : Type := PanicMsg + A.
Definition ok {A} (a : A) : Go A := inr a.
Definition panic {A} (p : PanicMsg) : Go A := inl p.

(** ** Data model *)

(** An [http.HandlerFunc] value: [nil] or a function, identified by a
    number (handler bodies are opaque to the router). *)
Inductive HandlerFunc : Type :=
  | NilFunc
  | Func (id : nat).

Record muxEntry : Type := MuxEntry {
  handler : HandlerFunc;
  regexp : bool               (* whether pattern is a regular expression *)
}.

(** [mu] guards [m] and has no sequential content; a nil map and an empty
    map behave alike for lookup and [range], so [m] is a plain finite map
    and the lazy [make] in [register] is the identity. *)
Record Mux : Type := MkMux {
  m : gmap string muxEntry;
  notFound : HandlerFunc
}.

Definition set_m (mux : Mux) (m' : gmap string muxEntry) : Mux :=
  {| m := m'; notFound := notFound mux |}.

(** [New]: panics on a nil [notFound], else [&Mux{notFound: notFound}]. *)
Definition New (nf : HandlerFunc) : Go Mux :=
  match nf with
  | NilFunc => panic PNilNotFound
  | Func _ => ok {| m := ∅; notFound := nf |}
  end.

(** ** Registration *)

(** The pattern checks of [register] (lines 67-77), in source order. *)
Definition checkPattern (pattern : string) (isRegexp : bool) : Go unit :=
  if String.eqb pattern "" then panic PInvalidPattern
  else if negb isRegexp && negb (String.eqb pattern "/") then
    match first_byte pattern, last_byte pattern with
    | Some c0, Some cl =>
        if negb (Ascii.eqb c0 slash) then panic PMustBeginWithSlash
        else if Ascii.eqb cl slash then panic PMustNotEndWithSlash
        else ok tt
    | _, _ => panic PIndexOutOfRange
    end
  else ok tt.

(** [register] threads the router: it returns the router after the call
    together with the result, so that what a panicking call leaves behind
    is part of the model. *)
Definition register (pattern : string) (h : HandlerFunc) (isRegexp : bool)
    (mux : Mux) : Mux * Go unit :=
  match checkPattern pattern isRegexp with
  | inl p => (mux, panic p)
  | inr _ =>
      match h with
      | NilFunc => (mux, panic PNilHandler)
      | Func _ =>
          match m mux !! pattern with
          | Some _ => (mux, panic (PMultipleRegistrations pattern))
          | None => (set_m mux (<[pattern := MuxEntry h isRegexp]> (m mux)), ok tt)
          end
      end
  end.

Definition HandleFunc (pattern : string) (h : HandlerFunc) : Mux -> Mux * Go unit :=
  register pattern h false.

Definition RegexpHandleFunc (pattern : string) (h : HandlerFunc) : Mux -> Mux * Go unit :=
  register pattern h true.

(** [range] over a Go map visits every entry once, in an order the
    language leaves open: an iteration order of a table is any permutation
    of its entries. *)
Definition iterates (t : gmap string muxEntry) (order : list (string * muxEntry)) : Prop :=
  order ≡ₚ map_to_list t.

(** [Mount]: the loop body calls [HandleFunc] for each entry of the
    submux, visited in the iteration order [order] of [submux.m]; a panic
    leaves the loop.  The submux is a router other than the destination. *)
Fixpoint Mount (prefix : string) (order : list (string * muxEntry))
    (mux : Mux) : Mux * Go unit :=
  match order with
  | [] => (mux, ok tt)
  | (pattern, e) :: rest =>
      match HandleFunc (prefix +:+ pattern) (handler e) mux with
      | (mux', inl p) => (mux', panic p)
      | (mux', inr _) => Mount prefix rest mux'
      end
  end.

(** ** Requests and responses *)

Record URL : Type := MkURL {
  Path : string;
  RawQuery : string
}.

(** The request-scoped values of [r.Context()]: [context.WithValue] puts a
    binding in front, [Value] returns the most recent binding of a key. *)
Definition Context : Type := list (string * string).


Record Request : Type := MkRequest {
  Method : string;
  RequestURI : string;
  ProtoMajor : Z;
  ProtoMinor : Z;
  url : URL;
  context : Context
}.

(** [r.WithContext(ctx)]: a copy of the request with its context replaced. *)
Definition WithContext (r : Request) (ctx : Context) : Request :=
  {| Method := Method r; RequestURI := RequestURI r;
     ProtoMajor := ProtoMajor r; ProtoMinor := ProtoMinor r;
     url := url r; context := ctx |}.

(** [r.WithContext(context.WithValue(r.Context(), name, v))] *)
Definition WithValue (r : Request) (name v : string) : Request :=
  WithContext r ((name, v) :: context r).

Definition ProtoAtLeast (r : Request) (major minor : Z) : bool :=
  (major <? ProtoMajor r) || ((ProtoMajor r =? major) && (minor <=? ProtoMinor r)).

Definition MethodConnect : string := "CONNECT".
Definition StatusBadRequest : Z := 400.
Definition StatusPermanentRedirect : Z := 308.

(** Which of the two [http.Redirect] calls of [ServeHTTP] was taken; the
    label is not part of the response. *)
Inductive RedirectSite : Type := TrailingSlash | LowerCase.

(** What [ServeHTTP] does with a request: the response it writes itself,
    the handler it calls (and the request it passes), or a panic. *)
Inductive Outcome : Type :=
  | BadRequest (connectionClose : bool)
  | Redirect (site : RedirectSite) (target : string) (code : Z)
  | Invoke (id : nat) (r : Request)
  | Panic (p : PanicMsg).

(** Calling a handler value. *)
Definition invoke (h : HandlerFunc) (r : Request) : Outcome :=
  match h with
  | NilFunc => Panic PNilFuncCall
  | Func id => Invoke id r
  end.

(** ** Runes: [range] over a string decodes UTF-8 *)

Definition byteZ (c : ascii) : Z := Z.of_N (N_of_ascii c).
Definition RuneError : Z := 0xFFFD.

Definition inRange (lo hi x : Z) : bool := (lo <=? x) && (x <=? hi).
Definition isCont (x : Z) : bool := inRange 0x80 0xBF x.

(** The first rune of a non-empty string and its width in bytes, as
    [utf8.DecodeRuneInString]: an invalid or short encoding yields
    [RuneError] of width 1. *)
Definition decodeRune (s : string) : Z * nat :=
  match s with
  | EmptyString => (RuneError, 0%nat)
  | String b0 s1 =>
    let c0 := byteZ b0 in
    if c0 <? 0x80 then (c0, 1%nat)
    else match s1 with
    | EmptyString => (RuneError, 1%nat)
    | String b1 s2 =>
      let c1 := byteZ b1 in
      if inRange 0xC2 0xDF c0 then
        if isCont c1
        then (Z.lor (Z.shiftl (Z.land c0 0x1F) 6) (Z.land c1 0x3F), 2%nat)
        else (RuneError, 1%nat)
      else match s2 with
      | EmptyString => (RuneError, 1%nat)
      | String b2 s3 =>
        let c2 := byteZ b2 in
        if inRange 0xE0 0xEF c0 then
          let lo := if c0 =? 0xE0 then 0xA0 else 0x80 in
          let hi := if c0 =? 0xED then 0x9F else 0xBF in
          if inRange lo hi c1 && isCont c2
          then (Z.lor (Z.shiftl (Z.land c0 0x0F) 12)
                  (Z.lor (Z.shiftl (Z.land c1 0x3F) 6) (Z.land c2 0x3F)), 3%nat)
          else (RuneError, 1%nat)
        else match s3 with
        | EmptyString => (RuneError, 1%nat)
        | String b3 _ =>
          let c3 := byteZ b3 in
          if inRange 0xF0 0xF4 c0 then
            let lo := if c0 =? 0xF0 then 0x90 else 0x80 in
            let hi := if c0 =? 0xF4 then 0x8F else 0xBF in
            if inRange lo hi c1 && isCont c2 && isCont c3
            then (Z.lor (Z.shiftl (Z.land c0 0x07) 18)
                    (Z.lor (Z.shiftl (Z.land c1 0x3F) 12)
                       (Z.lor (Z.shiftl (Z.land c2 0x3F) 6) (Z.land c3 0x3F))), 4%nat)
            else (RuneError, 1%nat)
          else (RuneError, 1%nat)
        end
      end
    end
  end.

(** The runes [for _, r := range s] visits; [skip] counts the bytes of the
    current rune still to step over. *)
Fixpoint runes_from (skip : nat) (s : string) : list Z :=
  match s with
  | EmptyString => []
  | String _ s' =>
      match skip with
      | S k => runes_from k s'
      | O => let '(r, w) := decodeRune s in r :: runes_from (Nat.pred w) s'
      end
  end.

Definition runes (s : string) : list Z := runes_from 0 s.

(** ** The imported packages, as interfaces *)

(** Package [regexp]: [Compile] is [None] where [regexp.Compile] returns
    an error; [FindStringSubmatch] is [[]] (nil) when there is no match. *)
Class RegexpPkg : Type := {
  Regexp : Type;
  Compile : string -> option Regexp;
  MatchString : Regexp -> string -> bool;
  FindStringSubmatch : Regexp -> string -> list string;
  SubexpNames : Regexp -> list string
}.

(** Package [unicode] and [strings.ToLower].  [IsUpper] is not called by
    the router; it is what "upper-case letter" means, and its law is the
    disjointness of the categories Lu and Ll inside L. *)
Class UnicodePkg : Type := {
  IsLetter : Z -> bool;
  IsLower : Z -> bool;
  IsUpper : Z -> bool;
  ToLower : string -> string;
  IsUpper_letter_not_lower :
    forall c, IsUpper c = true -> IsLetter c = true /\ IsLower c = false
}.

(** Package [net/url]: the [String] method of [URL]. *)
Class URLPkg : Type := {
  URL_String : URL -> string
}.

(** ** Dispatch *)

Section Dispatch.
Context `{RE : RegexpPkg} `{UC : UnicodePkg} `{UP : URLPkg}.

(** [regexp.MustCompile] *)
Definition MustCompile (pattern : string) : Go Regexp :=
  match Compile pattern with
  | None => panic (PRegexpCompile pattern)
  | Some re => ok re
  end.

(** [urlWithoutSlash]: compiles [pattern] first, then reads the last
    byte of [path]. *)
Definition urlWithoutSlash (path pattern : string) (u : URL) : Go (URL * bool) :=
  match MustCompile pattern with
  | inl p => panic p
  | inr re =>
      match splitLast path with
      | None => panic PIndexOutOfRange
      | Some (init, l) =>
          if Ascii.eqb l slash && (String.eqb init pattern || MatchString re init)
          then ok ({| Path := init; RawQuery := RawQuery u |}, true)
          else ok (u, false)
      end
  end.

(** [isLower]: false at the first rune that is a letter and not lower
    case. *)
Fixpoint isLower_runes (rs : list Z) : bool :=
  match rs with
  | [] => true
  | c :: rest =>
      if IsLetter c && negb (IsLower c) then false else isLower_runes rest
  end.

Definition isLower (s : string) : bool := isLower_runes (runes s).

(** The loop of [addRegexpSubmatchesToContext] over
    [re.SubexpNames()], from index [i]; [submatches[i]] panics when out
    of range. *)
Fixpoint bindSubmatches (i : nat) (names submatches : list string)
    (r : Request) : Go Request :=
  match names with
  | [] => ok r
  | name :: rest =>
      if Nat.eqb i 0 || String.eqb name ""
      then bindSubmatches (S i) rest submatches r
      else
        match submatches !! i with
        | None => panic PIndexOutOfRange
        | Some v => bindSubmatches (S i) rest submatches (WithValue r name v)
        end
  end.

(** [addRegexpSubmatchesToContext(next, re)(w, r)] *)
Definition addRegexpSubmatchesToContext (next : HandlerFunc) (re : Regexp)
    (r : Request) : Outcome :=
  let submatches := FindStringSubmatch re (Path (url r)) in
  match bindSubmatches 0 (SubexpNames re) submatches r with
  | inl p => Panic p
  | inr r' => invoke next r'
  end.

(** One iteration of the loop of [ServeHTTP]: [Some o] when the
    iteration returns (or panics) with outcome [o], [None] when the loop
    goes on to the next entry. *)
Definition serveEntry (r : Request) (pe : string * muxEntry) : option Outcome :=
  let '(pattern, e) := pe in
  match urlWithoutSlash (Path (url r)) pattern (url r) with
  | inl p => Some (Panic p)
  | inr (u, true) =>
      Some (Redirect TrailingSlash (URL_String u) StatusPermanentRedirect)
  | inr (_, false) =>
      if negb (String.eqb (Method r) MethodConnect) && negb (isLower (Path (url r)))
      then Some (Redirect LowerCase (ToLower (URL_String (url r)))
                   StatusPermanentRedirect)
      else if regexp e then
        match MustCompile pattern with
        | inl p => Some (Panic p)
        | inr re =>
            if MatchString re (Path (url r))
            then Some (addRegexpSubmatchesToContext (handler e) re r)
            else None
        end
      else if String.eqb (Path (url r)) pattern
      then Some (invoke (handler e) r)
      else None
  end.

Fixpoint serveEntries (r : Request) (order : list (string * muxEntry)) : option Outcome :=
  match order with
  | [] => None
  | pe :: rest =>
      match serveEntry r pe with
      | Some o => Some o
      | None => serveEntries r rest
      end
  end.

(** [ServeHTTP], with [order] the order in which [range mux.m] visits
    the table. *)
Definition ServeHTTP (mux : Mux) (order : list (string * muxEntry))
    (r : Request) : Outcome :=
  if String.eqb (RequestURI r) "*" then BadRequest (ProtoAtLeast r 1 1)
  else
    match serveEntries r order with
    | Some o => o
    | None => invoke (notFound mux) r
    end.

End Dispatch.

(** ** A concrete instance of the imported packages

    [GoLib] implements the three interfaces on a documented subset, for
    the examples of this file:
    - [regexp]: literals, [.], bracket classes with ranges and negation,
      groups (capturing, named [(?P<name>...)], non-capturing [(?:...)]),
      alternation, [*], [+], [?] and their lazy forms, [^], [$] and
      backslash-escaped punctuation, matched byte-wise with leftmost-first
      (backtracking priority) semantics as [regexp.Compile] gives them;
      anything else (counted repetition, flags, Perl classes) is rejected;
    - [unicode]: Basic Latin and the CJK ideographs U+4E00..U+9FA5;
    - [strings.ToLower]: ASCII strings;
    - [URL.String]: URLs made of a path and a raw query. *)
Module GoLib.

Inductive re : Type :=
  | Empty
  | Lit (c : ascii)
  | AnyNotNL
  | Class (neg : bool) (ranges : list (ascii * ascii))
  | Bol
  | Eol
  | Cat (a b : re)
  | Alt (a b : re)
  | Star (greedy : bool) (a : re)
  | Plus (greedy : bool) (a : re)
  | Quest (greedy : bool) (a : re)
  | Group (idx : nat) (a : re).

(** Capture registers: start and end offset of each group. *)
Definition Caps : Type := list (option (nat * nat)).
Definition Cont : Type := nat -> string -> Caps -> option Caps.

Definition orElse (a b : option Caps) : option Caps :=
  match a with
  | Some c => Some c
  | None => b
  end.

Definition inClass (ranges : list (ascii * ascii)) (c : ascii) : bool :=
  existsb (fun '(lo, hi) => inRange (byteZ lo) (byteZ hi) (byteZ c)) ranges.

(** One character test at the head of the input. *)
Definition eat (p : ascii -> bool) (pos : nat) (s : string) (caps : Caps)
    (k : Cont) : option Caps :=
  match s with
  | EmptyString => None
  | String c s' => if p c then k (S pos) s' caps else None
  end.

(** Iteration of [step]: each round must consume input. *)
Fixpoint star_loop (step : nat -> string -> Caps -> Cont -> option Caps)
    (greedy : bool) (k : Cont) (fuel : nat) (pos : nat) (s : string)
    (caps : Caps) : option Caps :=
  match fuel with
  | O => k pos s caps
  | S f =>
      let more :=
        step pos s caps (fun pos' s' caps' =>
          if Nat.leb pos' pos then None
          else star_loop step greedy k f pos' s' caps') in
      if greedy then orElse more (k pos s caps)
      else orElse (k pos s caps) more
  end.

(** Backtracking matcher in continuation-passing style; alternatives
    are tried in priority order. *)
Fixpoint run (r : re) (pos : nat) (s : string) (caps : Caps) (k : Cont)
    {struct r} : option Caps :=
  match r with
  | Empty => k pos s caps
  | Lit c => eat (Ascii.eqb c) pos s caps k
  | AnyNotNL => eat (fun c => negb (Ascii.eqb c "010"%char)) pos s caps k
  | Class neg ranges => eat (fun c => xorb neg (inClass ranges c)) pos s caps k
  | Bol => if Nat.eqb pos 0 then k pos s caps else None
  | Eol => match s with EmptyString => k pos s caps | _ => None end
  | Cat a b => run a pos s caps (fun pos' s' caps' => run b pos' s' caps' k)
  | Alt a b => orElse (run a pos s caps k) (run b pos s caps k)
  | Star g a => star_loop (run a) g k (S (String.length s)) pos s caps
  | Plus g a =>
      run a pos s caps (fun pos' s' caps' =>
        star_loop (run a) g k (S (String.length s')) pos' s' caps')
  | Quest g a =>
      if g then orElse (run a pos s caps k) (k pos s caps)
      else orElse (k pos s caps) (run a pos s caps k)
  | Group i a =>
      run a pos s caps (fun pos' s' caps' =>
        k pos' s' (<[i := Some (pos, pos')]> caps'))
  end.

Record prog : Type := Prog {
  root : re;
  names : list string        (* names of the groups 1..n, in order *)
}.

(** Leftmost match: the start offsets are tried from left to right. *)
Fixpoint search (p : prog) (pos : nat) (s : string) : option Caps :=
  let init := replicate (S (length (names p))) None in
  let here :=
    run (root p) pos s init (fun pos' _ caps' =>
      Some (<[0%nat := Some (pos, pos')]> caps')) in
  match here, s with
  | Some c, _ => Some c
  | None, EmptyString => None
  | None, String _ s' => search p (S pos) s'
  end.

Definition slice (s : string) (span : option (nat * nat)) : string :=
  match span with
  | None => EmptyString
  | Some (a, b) => String.substring a (b - a) s
  end.

Definition matchString (p : prog) (s : string) : bool :=
  match search p 0 s with Some _ => true | None => false end.

Definition findStringSubmatch (p : prog) (s : string) : list string :=
  match search p 0 s with
  | Some caps => map (slice s) caps
  | None => []
  end.

Definition subexpNames (p : prog) : list string := EmptyString :: names p.

(** *** Parsing patterns *)

Record pstate : Type := PState {
  ngroups : nat;
  names_rev : list string
}.

Definition isCh (c : ascii) (d : string) : bool :=
  match d with
  | String d0 EmptyString => Ascii.eqb c d0
  | _ => false
  end.

Definition isAlnum (c : ascii) : bool :=
  let z := byteZ c in
  inRange 48 57 z || inRange 65 90 z || inRange 97 122 z.

Definition isPunct (c : ascii) : bool :=
  let z := byteZ c in inRange 33 126 z && negb (isAlnum c).

(** A group name up to [>]: letters, digits and underscores, not empty. *)
Fixpoint groupName (s : string) : option (string * string) :=
  match s with
  | EmptyString => None
  | String c s' =>
      if isCh c ">" then Some (EmptyString, s')
      else if isAlnum c || isCh c "_" then
        match groupName s' with
        | Some (n, rest) => Some (String c n, rest)
        | None => None
        end
      else None
  end.

Inductive groupKind : Type :=
  | Capture (name : string)
  | NonCapture.

(** What follows an opening parenthesis. *)
Definition groupHeader (s : string) : option (groupKind * string) :=
  match s with
  | String q s1 =>
      if isCh q "?" then
        match s1 with
        | String c s2 =>
            if isCh c ":" then Some (NonCapture, s2)
            else if isCh c "P" then
              match s2 with
              | String lt s3 =>
                  if isCh lt "<" then
                    match groupName s3 with
                    | Some (EmptyString, _) | None => None
                    | Some (n, rest) => Some (Capture n, rest)
                    end
                  else None
              | EmptyString => None
              end
            else None
        | EmptyString => None
        end
      else Some (Capture EmptyString, s)
  | EmptyString => Some (Capture EmptyString, s)
  end.

(** The items of a bracket class up to the closing bracket; [first]
    marks the position where a closing bracket is still a literal. *)
Fixpoint classItems (first : bool) (s : string) : option (list (ascii * ascii) * string) :=
  match s with
  | EmptyString => None
  | String c s1 =>
      if isCh c "]" && negb first then Some ([], s1)
      else if isCh c "[" || isCh c "\" then None
      else
        match s1 with
        | String dash (String d s3 as s2) =>
            if isCh dash "-" && negb (isCh d "]") then
              if isCh d "[" || isCh d "\" || (byteZ d <? byteZ c) then None
              else
                match classItems false s3 with
                | Some (items, rest) => Some ((c, d) :: items, rest)
                | None => None
                end
            else
              match classItems false s1 with
              | Some (items, rest) => Some ((c, c) :: items, rest)
              | None => None
              end
        | _ =>
            match classItems false s1 with
            | Some (items, rest) => Some ((c, c) :: items, rest)
            | None => None
            end
        end
  end.

Definition parseClass (s : string) : option (re * string) :=
  let '(neg, s1) :=
    match s with
    | String c s' => if isCh c "^" then (true, s') else (false, s)
    | EmptyString => (false, s)
    end in
  match classItems true s1 with
  | Some (items, rest) => Some (Class neg items, rest)
  | None => None
  end.

Definition isRepeat (c : ascii) : bool := isCh c "*" || isCh c "+" || isCh c "?".

(** The repetition operator after an atom, with its lazy mark; a second
    operator in a row is an error. *)
Definition postfix (a : re) (s : string) : option (re * string) :=
  match s with
  | String c s1 =>
      if isRepeat c then
        let '(greedy, s2) :=
          match s1 with
          | String q s' => if isCh q "?" then (false, s') else (true, s1)
          | EmptyString => (true, s1)
          end in
        let r :=
          if isCh c "*" then Star greedy a
          else if isCh c "+" then Plus greedy a
          else Quest greedy a in
        match s2 with
        | String c2 _ => if isRepeat c2 then None else Some (r, s2)
        | EmptyString => Some (r, s2)
        end
      else Some (a, s)
  | EmptyString => Some (a, s)
  end.

Fixpoint parseAlt (fuel : nat) (s : string) (st : pstate) {struct fuel}
    : option (re * string * pstate) :=
  match fuel with
  | O => None
  | S f =>
      match parseCat f s st with
      | None => None
      | Some (a, s1, st1) =>
          match s1 with
          | String c s2 =>
              if isCh c "|" then
                match parseAlt f s2 st1 with
                | Some (b, s3, st3) => Some (Alt a b, s3, st3)
                | None => None
                end
              else Some (a, s1, st1)
          | EmptyString => Some (a, s1, st1)
          end
      end
  end
with parseCat (fuel : nat) (s : string) (st : pstate) {struct fuel}
    : option (re * string * pstate) :=
  match fuel with
  | O => None
  | S f =>
      match s with
      | EmptyString => Some (Empty, s, st)
      | String c _ =>
          if isCh c "|" || isCh c ")" then Some (Empty, s, st)
          else
            match parseAtom f s st with
            | None => None
            | Some (a, s1, st1) =>
                match postfix a s1 with
                | None => None
                | Some (a', s2) =>
                    match parseCat f s2 st1 with
                    | Some (b, s3, st3) => Some (Cat a' b, s3, st3)
                    | None => None
                    end
                end
            end
      end
  end
with parseAtom (fuel : nat) (s : string) (st : pstate) {struct fuel}
    : option (re * string * pstate) :=
  match fuel with
  | O => None
  | S f =>
      match s with
      | EmptyString => None
      | String c s1 =>
          if isCh c "(" then
            match groupHeader s1 with
            | None => None
            | Some (Capture n, s2) =>
                let i := S (ngroups st) in
                match parseAlt f s2 (PState i (n :: names_rev st)) with
                | Some (a, String close s3, st3) =>
                    if isCh close ")" then Some (Group i a, s3, st3) else None
                | _ => None
                end
            | Some (NonCapture, s2) =>
                match parseAlt f s2 st with
                | Some (a, String close s3, st3) =>
                    if isCh close ")" then Some (a, s3, st3) else None
                | _ => None
                end
            end
          else if isCh c "[" then
            match parseClass s1 with
            | Some (a, rest) => Some (a, rest, st)
            | None => None
            end
          else if isCh c "\" then
            match s1 with
            | String e s2 => if isPunct e then Some (Lit e, s2, st) else None
            | EmptyString => None
            end
          else if isRepeat c || isCh c ")" || isCh c "{" then None
          else if isCh c "." then Some (AnyNotNL, s1, st)
          else if isCh c "^" then Some (Bol, s1, st)
          else if isCh c "$" then Some (Eol, s1, st)
          else Some (Lit c, s1, st)
      end
  end.

Definition compile (pattern : string) : option prog :=
  match parseAlt (4 * String.length pattern + 8)%nat pattern (PState 0 []) with
  | Some (r, EmptyString, st) => Some (Prog r (rev (names_rev st)))
  | _ => None
  end.

#[export] Instance regexp_pkg : RegexpPkg := {|
  Regexp := prog;
  Compile := compile;
  MatchString := matchString;
  FindStringSubmatch := findStringSubmatch;
  SubexpNames := subexpNames
|}.

(** *** [unicode] and [strings.ToLower] *)

Definition isLetter (c : Z) : bool :=
  inRange 65 90 c || inRange 97 122 c || inRange 0x4E00 0x9FA5 c.
Definition isLowerRune (c : Z) : bool := inRange 97 122 c.
Definition isUpperRune (c : Z) : bool := inRange 65 90 c.

Fixpoint toLower (s : string) : string :=
  match s with
  | EmptyString => EmptyString
  | String c s' =>
      let z := byteZ c in
      String (if inRange 65 90 z then ascii_of_N (Z.to_N (z + 32)) else c)
             (toLower s')
  end.

#[export] Instance unicode_pkg : UnicodePkg.
Proof.
  refine {| IsLetter := isLetter; IsLower := isLowerRune;
            IsUpper := isUpperRune; ToLower := toLower |}.
  intros c; unfold isUpperRune, isLetter, isLowerRune, inRange; lia.
Defined.

(** *** [URL.String] *)

Definition shouldEscapePath (c : ascii) : bool :=
  negb (isAlnum c
        || isCh c "-" || isCh c "_" || isCh c "." || isCh c "~"
        || isCh c "$" || isCh c "&" || isCh c "+" || isCh c ","
        || isCh c "/" || isCh c ":" || isCh c ";" || isCh c "="
        || isCh c "@").

Definition upperhex (n : Z) : ascii :=
  ascii_of_N (Z.to_N (if n <? 10 then 48 + n else 55 + n)).

Fixpoint escapePath (s : string) : string :=
  match s with
  | EmptyString => EmptyString
  | String c s' =>
      if shouldEscapePath c
      then String "%" (String (upperhex (byteZ c / 16))
                         (String (upperhex (byteZ c mod 16)) (escapePath s')))
      else String c (escapePath s')
  end.

Definition EscapedPath (u : URL) : string :=
  if String.eqb (Path u) "*" then "*" else escapePath (Path u).

(** Whether the first path segment contains a colon. *)
Fixpoint colonInFirstSegment (s : string) : bool :=
  match s with
  | EmptyString => false
  | String c s' =>
      if isCh c "/" then false
      else if isCh c ":" then true
      else colonInFirstSegment s'
  end.

Definition urlString (u : URL) : string :=
  let path := EscapedPath u in
  ((if colonInFirstSegment path then "./" else "") +:+ path)
  +:+ (if String.eqb (RawQuery u) "" then "" else "?" +:+ RawQuery u).

#[export] Instance url_pkg : URLPkg := {| URL_String := urlString |}.

End GoLib.

(** ** Properties of the specification, stated as written

    These are the statements that turn out to need an amendment; each is
    kept here in the form the specification gives it. *)

Section AsStated.
Context `{RE : RegexpPkg} `{UC : UnicodePkg} `{UP : URLPkg}.

(** [path] ends with a slash and [stripped] is what is left of it. *)
Definition endsWithSlash (path stripped : string) : Prop :=
  splitLast path = Some (stripped, slash).

(** [s] equals the pattern or matches it as a regular expression. *)
Definition equalsOrMatches (pattern s : string) : Prop :=
  s = pattern \/ exists re, Compile pattern = Some re /\ MatchString re s = true.

Definition hasUpper (s : string) : bool := existsb IsUpper (runes s).

(** The trailing-slash check of the entry with pattern [p] asks for a
    redirect of [r]. *)
Definition slashTriggers (r : Request) (p : string) : Prop :=
  exists stripped,
    endsWithSlash (Path (url r)) stripped /\ equalsOrMatches p stripped.

(** The match test of the entry [(p, e)] accepts the path of [r]. *)
Definition entryMatches (r : Request) (p : string) (e : muxEntry) : Prop :=
  if regexp e
  then exists re, Compile p = Some re /\ MatchString re (Path (url r)) = true
  else Path (url r) = p.

(** The case check lets [r] through. *)
Definition caseCheckPasses (r : Request) : Prop :=
  Method r = MethodConnect \/ isLower (Path (url r)) = true.

(** Trailing-slash redirect, for every router and iteration order. *)
Definition slash_redirect_as_stated : Prop :=
  forall mux order r stripped,
    iterates (m mux) order ->
    RequestURI r <> "*" ->
    endsWithSlash (Path (url r)) stripped ->
    (exists p e, m mux !! p = Some e /\ equalsOrMatches p stripped) ->
    ServeHTTP mux order r =
      Redirect TrailingSlash
        (URL_String {| Path := stripped; RawQuery := RawQuery (url r) |})
        StatusPermanentRedirect.

(** Duplicate registration always reports the duplicate and changes
    nothing, directly and through [Mount]. *)
Definition duplicate_as_stated : Prop :=
  (forall mux p h isRegexp,
     is_Some (m mux !! p) ->
     register p h isRegexp mux = (mux, panic (PMultipleRegistrations p)))
  /\ (forall mux prefix pattern e rest,
        is_Some (m mux !! (prefix +:+ pattern)) ->
        Mount prefix ((pattern, e) :: rest) mux
        = (mux, panic (PMultipleRegistrations (prefix +:+ pattern)))).

(** Case redirect and its converse. *)
Definition case_redirect_as_stated : Prop :=
  (forall mux order r,
     iterates (m mux) order ->
     m mux <> ∅ ->
     RequestURI r <> "*" ->
     Method r <> MethodConnect ->
     hasUpper (Path (url r)) = true ->
     (forall t c, ServeHTTP mux order r <> Redirect TrailingSlash t c) ->
     ServeHTTP mux order r =
       Redirect LowerCase (ToLower (URL_String (url r))) StatusPermanentRedirect)
  /\ (forall mux order r t c,
        iterates (m mux) order ->
        hasUpper (Path (url r)) = false ->
        ServeHTTP mux order r <> Redirect LowerCase t c).

(** Literal-only routers: exact match or not-found. *)
Definition literal_dispatch_as_stated : Prop :=
  forall mux order r,
    iterates (m mux) order ->
    (forall p e, m mux !! p = Some e -> regexp e = false) ->
    RequestURI r <> "*" ->
    match m mux !! Path (url r) with
    | Some e => ServeHTTP mux order r = invoke (handler e) r
    | None => ServeHTTP mux order r = invoke (notFound mux) r
    end.

(** Empty path on a non-empty table: the index panic. *)
Definition empty_path_as_stated : Prop :=
  forall mux order r,
    iterates (m mux) order ->
    m mux <> ∅ ->
    RequestURI r <> "*" ->
    Path (url r) = "" ->
    ServeHTTP mux order r = Panic PIndexOutOfRange.

(** [Mount] as the specification describes it: each entry goes through
    [register] with its own flag. *)
Fixpoint Mount_spec (prefix : string) (order : list (string * muxEntry))
    (mux : Mux) : Mux * Go unit :=
  match order with
  | [] => (mux, ok tt)
  | (pattern, e) :: rest =>
      match register (prefix +:+ pattern) (handler e) (regexp e) mux with
      | (mux', inl p) => (mux', panic p)
      | (mux', inr _) => Mount_spec prefix rest mux'
      end
  end.

(** The bindings the specification asks for: one per named group, in
    group order, from index [i]. *)
Fixpoint namedBindings (i : nat) (names submatches : list string) : Context :=
  match names with
  | [] => []
  | name :: rest =>
      match i, String.eqb name "", submatches !! i with
      | S _, false, Some v => (name, v) :: namedBindings (S i) rest submatches
      | _, _, _ => namedBindings (S i) rest submatches
      end
  end.

End AsStated.

(** A literal pattern in the sense of the package comment: exactly ["/"],
    or beginning with a slash and not ending with one. *)
Definition literalShape (p : string) : Prop :=
  p = "/" \/ (first_byte p = Some slash /\ last_byte p <> Some slash).

(** What the pattern checks of registration accept. *)
Definition validPattern (p : string) (isRegexp : bool) : Prop :=
  p <> "" /\ (isRegexp = false -> literalShape p).

(** ** Example routers and requests *)

Module Examples.

Definition router (entries : list (string * muxEntry)) : Mux :=
  {| m := list_to_map entries; notFound := Func 0 |}.

Definition literal (id : nat) : muxEntry := MuxEntry (Func id) false.
Definition regular (id : nat) : muxEntry := MuxEntry (Func id) true.

(** A GET request in origin form, HTTP/1.1. *)
Definition get (path query : string) : Request :=
  {| Method := "GET";
     RequestURI := if String.eqb query "" then path else path +:+ "?" +:+ query;
     ProtoMajor := 1; ProtoMinor := 1;
     url := {| Path := path; RawQuery := query |};
     context := [] |}.

(** A CONNECT request: the target is an authority and the URL has no
    path. *)
Definition connect (authority : string) : Request :=
  {| Method := "CONNECT"; RequestURI := authority;
     ProtoMajor := 1; ProtoMinor := 1;
     url := {| Path := ""; RawQuery := "" |};
     context := [] |}.

Definition id_pattern : string := "/(?P<id>[0-9]+)".
Definition digit_pattern : string := "/(?P<id>[0-9])".

(** U+4E2D, a letter without case, as UTF-8. *)
Definition zhong : string :=
  String "228"%char (String "184"%char (String "173"%char EmptyString)).

End Examples.

(** ** Routers built through the API *)

(** What [New] and the checks of [register] establish: the not-found
    handler and every registered handler are functions, and every pattern
    passed the pattern checks of its kind. *)
Definition wellFormed (mux : Mux) : Prop :=
  notFound mux <> NilFunc
  /\ forall p e, m mux !! p = Some e ->
                 handler e <> NilFunc /\ validPattern p (regexp e).

(** The routers a program can hold: the result of [New], and what a
    router is after a call of [register] (through [HandleFunc] or
    [RegexpHandleFunc]) or of [Mount] with another such router, whether the
    call returned or panicked. *)
Inductive reachable : Mux -> Prop :=
  | reachable_New (nf : HandlerFunc) (mux : Mux) :
      New nf = ok mux -> reachable mux
  | reachable_register (p : string) (h : HandlerFunc) (isRegexp : bool) (mux : Mux) :
      reachable mux -> reachable (fst (register p h isRegexp mux))
  | reachable_Mount (prefix : string) (sub : Mux)
      (order : list (string * muxEntry)) (mux : Mux) :
      reachable sub -> iterates (m sub) order -> reachable mux ->
      reachable (fst (Mount prefix order mux)).

(** [r'] is [r] with bindings put in front of its context. *)
Definition extendsContext (r r' : Request) : Prop :=
  exists bound, r' = WithContext r (bound ++ context r).

Section DispatchStatements.
Context `{RE : RegexpPkg} `{UC : UnicodePkg} `{UP : URLPkg}.

(** The guarantee of package [regexp] that [submatches[i]] relies on: a
    match has one submatch per name. *)
Definition submatchesAligned : Prop :=
  forall re s, MatchString re s = true ->
               length (FindStringSubmatch re s) = length (SubexpNames re).

(** What the match branch of an entry does once its test has succeeded. *)
Definition matchOutcome (r : Request) (e : muxEntry) (re : Regexp) : Outcome :=
  if regexp e then addRegexpSubmatchesToContext (handler e) re r
  else invoke (handler e) r.

End DispatchStatements.

(** A continuation of the concrete matcher that keeps the number of
    capture registers. *)
Definition keepsLength (n : nat) (k : GoLib.Cont) : Prop :=
  forall pos s caps c, length caps = n -> k pos s caps = Some c -> length c = n.

(** * Properties *)

(** ** Byte-level facts about strings *)

Lemma splitLast_None (s : string) : splitLast s = None <-> s = "".
Proof.
  destruct s as [|c s]; simpl; [tauto|].
  destruct (splitLast s) as [[init l]|]; split; intros H; discriminate H.
Qed.

Lemma append_cons (c : ascii) (a b : string) :
  String c a +:+ b = String c (a +:+ b).
Proof. reflexivity. Qed.

Lemma append_nil_l (b : string) : "" +:+ b = b.
Proof. reflexivity. Qed.

Lemma splitLast_Some (s init : string) (l : ascii) :
  splitLast s = Some (init, l) <-> s = init +:+ String l "".
Proof.
  revert init; induction s as [|c s IH]; intros init.
  - simpl. split; [discriminate|]. destruct init; discriminate.
  - change (splitLast (String c s)) with
      (match splitLast s with
       | None => Some (EmptyString, c)
       | Some (init, l) => Some (String c init, l)
       end).
    destruct (splitLast s) as [[init' l']|] eqn:E.
    + split.
      * intros [= <- <-]. rewrite append_cons. f_equal.
        exact (proj1 (IH init') eq_refl).
      * destruct init as [|c' init].
        { rewrite append_nil_l. intros [= -> ->]. discriminate E. }
        rewrite append_cons. intros [= -> Hs].
        apply IH in Hs. by injection Hs as -> ->.
    + apply splitLast_None in E as ->. split.
      * by intros [= <- <-].
      * destruct init as [|c' init]; [by intros [= ->]|].
        rewrite append_cons. intros [= _ Hs]. destruct init; discriminate Hs.
Qed.

Lemma last_byte_None (s : string) : last_byte s = None <-> s = "".
Proof.
  unfold last_byte. rewrite <- splitLast_None.
  destruct (splitLast s); simpl; split; congruence.
Qed.

Lemma string_eqb_false (s t : string) : s <> t -> String.eqb s t = false.
Proof. intros H. by apply String.eqb_neq. Qed.

(** ** Registration *)

Lemma checkPattern_ok (p : string) (isRegexp : bool) :
  checkPattern p isRegexp = ok tt <-> validPattern p isRegexp.
Proof.
  unfold checkPattern, validPattern, literalShape.
  destruct (String.eqb_spec p "") as [->|Hne].
  { split; [discriminate|]. intros [H _]. by destruct H. }
  destruct isRegexp; simpl.
  { split; [|done]. intros _. split; [done|discriminate]. }
  destruct (String.eqb_spec p "/") as [->|Hroot]; simpl.
  { split; [|done]. intros _. split; [done|]. by left. }
  destruct (first_byte p) as [c0|] eqn:E0; [|by destruct p].
  destruct (last_byte p) as [cl|] eqn:El; [|by apply last_byte_None in El].
  destruct (Ascii.eqb_spec c0 slash) as [->|H0]; simpl.
  - destruct (Ascii.eqb_spec cl slash) as [->|Hl].
    + split; [discriminate|]. intros [_ H]. destruct (H eq_refl) as [?|[_ ?]]; done.
    + split; [|done]. intros _. split; [done|]. intros _. right. split; congruence.
  - split; [discriminate|]. intros [_ H].
    destruct (H eq_refl) as [?|[? _]]; congruence.
Qed.

Lemma checkPattern_empty (isRegexp : bool) :
  checkPattern "" isRegexp = panic PInvalidPattern.
Proof. reflexivity. Qed.

Lemma checkPattern_no_leading_slash (p : string) :
  p <> "" -> p <> "/" -> first_byte p <> Some slash ->
  checkPattern p false = panic PMustBeginWithSlash.
Proof.
  intros Hne Hroot H0. unfold checkPattern.
  rewrite (string_eqb_false _ _ Hne), (string_eqb_false _ _ Hroot). simpl.
  destruct (first_byte p) as [c0|] eqn:E0; [|by destruct p].
  destruct (last_byte p) as [cl|] eqn:El; [|by apply last_byte_None in El].
  destruct (Ascii.eqb_spec c0 slash) as [->|]; [done|reflexivity].
Qed.

Lemma checkPattern_trailing_slash (p : string) :
  p <> "/" -> first_byte p = Some slash -> last_byte p = Some slash ->
  checkPattern p false = panic PMustNotEndWithSlash.
Proof.
  intros Hroot H0 Hl. unfold checkPattern.
  assert (p <> "") as Hne by (intros ->; discriminate H0).
  rewrite (string_eqb_false _ _ Hne), (string_eqb_false _ _ Hroot). simpl.
  rewrite H0, Hl. reflexivity.
Qed.

Lemma checkPattern_regexp (p : string) :
  p <> "" -> checkPattern p true = ok tt.
Proof. intros Hne. apply checkPattern_ok. split; [done|discriminate]. Qed.

Lemma register_fails_unchanged (p : string) (h : HandlerFunc) (isRegexp : bool)
    (mux : Mux) (msg : PanicMsg) :
  snd (register p h isRegexp mux) = panic msg ->
  fst (register p h isRegexp mux) = mux.
Proof.
  unfold register. destruct (checkPattern p isRegexp); [done|].
  destruct h; [done|]. destruct (m mux !! p); [done|discriminate].
Qed.

Lemma register_fresh (p : string) (id : nat) (isRegexp : bool) (mux : Mux) :
  m mux !! p = None ->
  register p (Func id) isRegexp mux =
  match checkPattern p isRegexp with
  | inl msg => (mux, panic msg)
  | inr _ => (set_m mux (<[p := MuxEntry (Func id) isRegexp]> (m mux)), ok tt)
  end.
Proof. intros H. unfold register. rewrite H. by destruct (checkPattern p isRegexp). Qed.

Lemma checkPattern_cases (p : string) (isRegexp : bool) :
  checkPattern p isRegexp = ok tt \/ exists msg, checkPattern p isRegexp = panic msg.
Proof. destruct (checkPattern p isRegexp) as [msg|[]]; [right; by exists msg|by left]. Qed.

(** C5: for a fresh pattern and a non-nil handler, registration succeeds
    (and inserts the entry with the given flag) exactly when the pattern is
    non-empty and, for a literal, is ["/"] or begins with a slash and does
    not end with one; the three failures are the empty-pattern,
    missing-leading-slash and trailing-slash panics, checked in that order,
    and leave the router as it was; a regular-expression pattern is accepted
    whenever it is non-empty, whatever its syntax. *)
Theorem register_validation (mux : Mux) (p : string) (id : nat) (isRegexp : bool) :
  m mux !! p = None ->
  let inserted := set_m mux (<[p := MuxEntry (Func id) isRegexp]> (m mux)) in
  let result := register p (Func id) isRegexp mux in
  (result = (inserted, ok tt) <-> validPattern p isRegexp)
  /\ (~ validPattern p isRegexp -> exists msg, result = (mux, panic msg))
  /\ (p = "" -> result = (mux, panic PInvalidPattern))
  /\ (isRegexp = false -> p <> "" -> p <> "/" -> first_byte p <> Some slash ->
      result = (mux, panic PMustBeginWithSlash))
  /\ (isRegexp = false -> p <> "/" -> first_byte p = Some slash ->
      last_byte p = Some slash ->
      result = (mux, panic PMustNotEndWithSlash))
  /\ (isRegexp = true -> p <> "" -> result = (inserted, ok tt)).
Proof.
  intros Hfresh inserted result. subst inserted result.
  rewrite (register_fresh _ _ _ _ Hfresh).
  split; [split|split; [|split; [|split; [|split]]]].
  - intros H. apply checkPattern_ok.
    destruct (checkPattern p isRegexp) as [msg|[]]; [discriminate H|done].
  - intros H. apply checkPattern_ok in H. by rewrite H.
  - intros H. destruct (checkPattern_cases p isRegexp) as [Hok|[msg Hmsg]].
    + by apply checkPattern_ok in Hok.
    + exists msg. by rewrite Hmsg.
  - intros ->. by rewrite checkPattern_empty.
  - intros -> Hne Hroot H0. by rewrite checkPattern_no_leading_slash.
  - intros -> Hroot H0 Hl. by rewrite checkPattern_trailing_slash.
  - intros -> Hne. by rewrite checkPattern_regexp.
Qed.

Lemma register_validation_witness :
  m (Examples.router []) !! "/hello" = None
  /\ register "/hello" (Func 1) false (Examples.router [])
     = (Examples.router [("/hello", Examples.literal 1)], ok tt).
Proof.
  assert (m (Examples.router []) !! "/hello" = None) as Hfresh by reflexivity.
  split; [exact Hfresh|].
  destruct (register_validation (Examples.router []) "/hello" 1 false Hfresh)
    as [Hiff _].
  apply Hiff. split; [discriminate|].
  intros _. right. split; [reflexivity|discriminate].
Defined.

(** Registration examples from the package tests and documentation. *)
Example register_empty_pattern :
  register "" (Func 1) false (Examples.router []) = (Examples.router [], panic PInvalidPattern).
Proof. reflexivity. Qed.

Example register_trailing_slash :
  register "/a/" (Func 1) false (Examples.router [])
  = (Examples.router [], panic PMustNotEndWithSlash).
Proof. reflexivity. Qed.

Example register_no_leading_slash :
  register "a/" (Func 1) false (Examples.router [])
  = (Examples.router [], panic PMustBeginWithSlash).
Proof. reflexivity. Qed.

Example register_invalid_regexp_accepted :
  GoLib.compile "/(?P<id>.+" = None
  /\ register "/(?P<id>.+" (Func 1) true (Examples.router [])
     = (Examples.router [("/(?P<id>.+", Examples.regular 1)], ok tt).
Proof. split; reflexivity. Qed.

(** ** Duplicates *)

Lemma register_present (mux : Mux) (p : string) (h : HandlerFunc) (isRegexp : bool) :
  is_Some (m mux !! p) ->
  register p h isRegexp mux =
  (mux, panic (match checkPattern p isRegexp with
               | inl msg => msg
               | inr _ => match h with
                          | NilFunc => PNilHandler
                          | Func _ => PMultipleRegistrations p
                          end
               end)).
Proof.
  intros [e He]. unfold register. rewrite He.
  destruct (checkPattern p isRegexp); [done|]. by destruct h.
Qed.

Lemma Mount_head_fails (prefix pattern : string) (e : muxEntry)
    (rest : list (string * muxEntry)) (mux : Mux) (msg : PanicMsg) :
  register (prefix +:+ pattern) (handler e) false mux = (mux, panic msg) ->
  Mount prefix ((pattern, e) :: rest) mux = (mux, panic msg).
Proof. intros H. simpl. unfold HandleFunc. by rewrite H. Qed.

(** The loop of [Mount] over a list split in two. *)
Lemma Mount_app (prefix : string) (pre post : list (string * muxEntry)) (mux : Mux) :
  Mount prefix (pre ++ post) mux =
  match Mount prefix pre mux with
  | (mux', inl msg) => (mux', panic msg)
  | (mux', inr _) => Mount prefix post mux'
  end.
Proof.
  revert mux; induction pre as [|[pattern e] pre IH]; intros mux; simpl.
  - done.
  - destruct (HandleFunc _ _ mux) as [mux' [msg|[]]]; [done|]. apply IH.
Qed.

(** C3 (amended): a [register] call for a pattern that is already in the
    table always panics and leaves the router unchanged, and so does the
    [Mount] whose next entry, once prefixed, is that pattern; the panic is
    the duplicate-pattern one when the handler is non-nil and the pattern
    passes the pattern checks for the kind being registered (the checks and
    the nil-handler test come first). *)
Theorem register_duplicate (mux : Mux) (p : string) (h : HandlerFunc) (isRegexp : bool) :
  is_Some (m mux !! p) ->
  (exists msg, register p h isRegexp mux = (mux, panic msg))
  /\ (h <> NilFunc -> validPattern p isRegexp ->
      register p h isRegexp mux = (mux, panic (PMultipleRegistrations p)))
  /\ (forall prefix pattern e rest,
        p = prefix +:+ pattern ->
        (exists msg, Mount prefix ((pattern, e) :: rest) mux = (mux, panic msg))
        /\ (handler e <> NilFunc -> validPattern p false ->
            Mount prefix ((pattern, e) :: rest) mux
            = (mux, panic (PMultipleRegistrations p)))).
Proof.
  intros Hin.
  assert (forall h' b, h' <> NilFunc -> validPattern p b ->
            register p h' b mux = (mux, panic (PMultipleRegistrations p))) as Hdup.
  { intros h' b Hh Hv. rewrite (register_present _ _ _ _ Hin).
    apply checkPattern_ok in Hv. rewrite Hv. by destruct h'. }
  split; [|split].
  - eexists. apply (register_present _ _ _ _ Hin).
  - apply Hdup.
  - intros prefix pattern e rest ->. split.
    + eexists. apply Mount_head_fails. apply (register_present _ _ _ _ Hin).
    + intros Hh Hv. apply Mount_head_fails. by apply Hdup.
Qed.

Lemma register_duplicate_witness :
  register "/a" (Func 2) false (Examples.router [("/a", Examples.literal 1)])
  = (Examples.router [("/a", Examples.literal 1)], panic (PMultipleRegistrations "/a")).
Proof.
  assert (is_Some (m (Examples.router [("/a", Examples.literal 1)]) !! "/a")) as Hin
    by (exists (Examples.literal 1); reflexivity).
  destruct (register_duplicate (Examples.router [("/a", Examples.literal 1)])
              "/a" (Func 2) false Hin) as (_ & Hdup & _).
  apply Hdup.
  - discriminate.
  - split; [discriminate|]. intros _. right. split; [reflexivity|discriminate].
Defined.

(** The statement without the proviso fails: a pattern registered as a
    regular expression and registered again as a literal stops at the
    leading-slash check. *)
Lemma duplicate_as_stated_fails : ~ duplicate_as_stated.
Proof.
  intros [H _].
  specialize (H (Examples.router [("^/a$", Examples.regular 1)]) "^/a$" (Func 2) false).
  assert (is_Some (m (Examples.router [("^/a$", Examples.regular 1)]) !! "^/a$")) as Hin
    by (exists (Examples.regular 1); reflexivity).
  specialize (H Hin). discriminate H.
Qed.

(** The test "duplicate patterns": mounting a router with ["/a"] into one
    that has ["/a"]. *)
Example Mount_duplicate_patterns :
  Mount "" [("/a", Examples.literal 2)] (Examples.router [("/a", Examples.literal 1)])
  = (Examples.router [("/a", Examples.literal 1)], panic (PMultipleRegistrations "/a")).
Proof. reflexivity. Qed.

(** ** Dispatch: the loop *)

Section DispatchFacts.
Context `{RE : RegexpPkg} `{UC : UnicodePkg} `{UP : URLPkg}.

Lemma serveEntries_app (r : Request) (pre post : list (string * muxEntry)) :
  serveEntries r (pre ++ post) =
  match serveEntries r pre with
  | Some o => Some o
  | None => serveEntries r post
  end.
Proof.
  induction pre as [|pe pre IH]; simpl; [done|].
  by destruct (serveEntry r pe).
Qed.

Lemma ServeHTTP_not_wildcard (mux : Mux) (order : list (string * muxEntry))
    (r : Request) :
  RequestURI r <> "*" ->
  ServeHTTP mux order r =
  match serveEntries r order with
  | Some o => o
  | None => invoke (notFound mux) r
  end.
Proof. intros H. unfold ServeHTTP. by rewrite (string_eqb_false _ _ H). Qed.

(** Dispatch reaches an entry when no entry before it ends the loop;
    what happens then is that entry's iteration. *)
Lemma ServeHTTP_reaches (mux : Mux) (pre post : list (string * muxEntry))
    (pe : string * muxEntry) (r : Request) (o : Outcome) :
  RequestURI r <> "*" ->
  serveEntries r pre = None ->
  serveEntry r pe = Some o ->
  ServeHTTP mux (pre ++ pe :: post) r = o.
Proof.
  intros Huri Hpre Hpe. rewrite ServeHTTP_not_wildcard by done.
  rewrite serveEntries_app, Hpre. simpl. by rewrite Hpe.
Qed.

Lemma MustCompile_Some (p : string) (re : Regexp) :
  Compile p = Some re -> MustCompile p = ok re.
Proof. intros H. unfold MustCompile. by rewrite H. Qed.

Lemma MustCompile_None (p : string) :
  Compile p = None -> MustCompile p = panic (PRegexpCompile p).
Proof. intros H. unfold MustCompile. by rewrite H. Qed.

(** The three results of [urlWithoutSlash]. *)
Lemma urlWithoutSlash_uncompilable (path p : string) (u : URL) :
  Compile p = None -> urlWithoutSlash path p u = panic (PRegexpCompile p).
Proof. intros H. unfold urlWithoutSlash. by rewrite (MustCompile_None _ H). Qed.

Lemma urlWithoutSlash_empty_path (p : string) (u : URL) (re : Regexp) :
  Compile p = Some re -> urlWithoutSlash "" p u = panic PIndexOutOfRange.
Proof. intros H. unfold urlWithoutSlash. by rewrite (MustCompile_Some _ _ H). Qed.

Lemma urlWithoutSlash_triggers (r : Request) (p stripped : string) (re : Regexp) :
  Compile p = Some re ->
  endsWithSlash (Path (url r)) stripped ->
  stripped = p \/ MatchString re stripped = true ->
  urlWithoutSlash (Path (url r)) p (url r)
  = ok ({| Path := stripped; RawQuery := RawQuery (url r) |}, true).
Proof.
  intros Hc Hs Hm. unfold urlWithoutSlash.
  rewrite (MustCompile_Some _ _ Hc). unfold endsWithSlash in Hs. rewrite Hs.
  replace (Ascii.eqb slash slash) with true by (symmetry; apply Ascii.eqb_refl).
  unfold ok at 1. cbv iota beta.
  destruct Hm as [->|Hm].
  - by rewrite String.eqb_refl.
  - rewrite Hm. by rewrite orb_true_r.
Qed.

Lemma urlWithoutSlash_passes (r : Request) (p : string) (re : Regexp) :
  Compile p = Some re ->
  Path (url r) <> "" ->
  ~ slashTriggers r p ->
  urlWithoutSlash (Path (url r)) p (url r) = ok (url r, false).
Proof.
  intros Hc Hne Hno. unfold urlWithoutSlash. rewrite (MustCompile_Some _ _ Hc).
  unfold ok at 1. cbv iota beta.
  destruct (splitLast (Path (url r))) as [[init l]|] eqn:E;
    [|by apply splitLast_None in E].
  destruct (Ascii.eqb_spec l slash) as [->|Hl]; [|done]. simpl.
  destruct (String.eqb_spec init p) as [->|Hp]; simpl.
  - destruct Hno. exists p. split; [done|by left].
  - destruct (MatchString re init) eqn:Hm; [|done].
    destruct Hno. exists init. split; [done|]. right. by exists re.
Qed.

(** An upper-case letter makes [isLower] false. *)
Lemma isLower_runes_upper (rs : list Z) :
  existsb IsUpper rs = true -> isLower_runes rs = false.
Proof.
  induction rs as [|c rs IH]; simpl; [discriminate|].
  destruct (IsUpper c) eqn:Hu; simpl.
  - intros _. destruct (IsUpper_letter_not_lower c Hu) as [-> ->]. done.
  - intros H. rewrite (IH H). by destruct (IsLetter c && negb (IsLower c)).
Qed.

Lemma hasUpper_not_lower (s : string) : hasUpper s = true -> isLower s = false.
Proof. apply isLower_runes_upper. Qed.

Lemma hasUpper_nonempty (s : string) : hasUpper s = true -> s <> "".
Proof. by intros H ->. Qed.

(** The iteration of an entry whose slash check passes. *)
Lemma serveEntry_after_slash_check (r : Request) (p : string) (e : muxEntry)
    (re : Regexp) :
  Compile p = Some re ->
  Path (url r) <> "" ->
  ~ slashTriggers r p ->
  serveEntry r (p, e) =
  if negb (String.eqb (Method r) MethodConnect) && negb (isLower (Path (url r)))
  then Some (Redirect LowerCase (ToLower (URL_String (url r))) StatusPermanentRedirect)
  else if regexp e then
    if MatchString re (Path (url r))
    then Some (addRegexpSubmatchesToContext (handler e) re r)
    else None
  else if String.eqb (Path (url r)) p then Some (invoke (handler e) r)
  else None.
Proof.
  intros Hc Hne Hno. unfold serveEntry.
  rewrite (urlWithoutSlash_passes _ _ _ Hc Hne Hno).
  by rewrite (MustCompile_Some _ _ Hc).
Qed.

Lemma caseCheckPasses_cond (r : Request) :
  caseCheckPasses r ->
  negb (String.eqb (Method r) MethodConnect) && negb (isLower (Path (url r))) = false.
Proof.
  intros [Hm | Hl].
  - rewrite Hm. by rewrite String.eqb_refl.
  - rewrite Hl. apply andb_false_r.
Qed.

End DispatchFacts.

(** ** Iteration orders of a table *)

Lemma iterates_empty (order : list (string * muxEntry)) :
  iterates ∅ order -> order = [].
Proof.
  unfold iterates. rewrite map_to_list_empty. apply Permutation_nil_r.
Qed.

Lemma iterates_nonempty (t : gmap string muxEntry) (order : list (string * muxEntry)) :
  iterates t order -> t <> ∅ -> exists p e rest, order = (p, e) :: rest.
Proof.
  intros Hit Hne. destruct order as [|[p e] rest]; [|by exists p, e, rest].
  destruct Hne. apply map_to_list_empty_iff.
  symmetry. apply Permutation_nil_l. exact Hit.
Qed.

Lemma iterates_elem_of (t : gmap string muxEntry) (order : list (string * muxEntry))
    (p : string) (e : muxEntry) :
  iterates t order -> (p, e) ∈ order <-> t !! p = Some e.
Proof.
  intros Hit. unfold iterates in Hit. rewrite Hit. apply elem_of_map_to_list.
Qed.

Lemma iterates_singleton (p : string) (e : muxEntry) :
  iterates (<[p := e]> ∅) [(p, e)].
Proof.
  unfold iterates. change (<[p := e]> ∅) with ({[p := e]} : gmap string muxEntry).
  by rewrite map_to_list_singleton.
Qed.

(** ** Dispatch: panics, the empty table *)

Section DispatchProperties.
Context `{RE : RegexpPkg} `{UC : UnicodePkg} `{UP : URLPkg}.

(** C8: the trailing-slash check compiles the pattern of every entry the
    loop visits, literal or not, before any match test.  So a pattern that
    does not compile as a regular expression can still be registered as a
    literal (registration only applies the literal pattern checks), and from
    then on the iteration of its entry panics with the compilation error for
    every request, and so does every dispatch that reaches the entry. *)
Theorem uncompilable_literal_panics (p : string) :
  Compile p = None ->
  (forall mux id,
     validPattern p false -> m mux !! p = None ->
     register p (Func id) false mux
     = (set_m mux (<[p := MuxEntry (Func id) false]> (m mux)), ok tt))
  /\ (forall r e, serveEntry r (p, e) = Some (Panic (PRegexpCompile p)))
  /\ (forall mux pre e post r,
        RequestURI r <> "*" ->
        serveEntries r pre = None ->
        ServeHTTP mux (pre ++ (p, e) :: post) r = Panic (PRegexpCompile p)).
Proof.
  intros Hc.
  assert (forall r e, serveEntry r (p, e) = Some (Panic (PRegexpCompile p))) as Hentry.
  { intros r e. unfold serveEntry. by rewrite (urlWithoutSlash_uncompilable _ _ _ Hc). }
  split; [|split].
  - intros mux id Hv Hfresh. rewrite (register_fresh _ _ _ _ Hfresh).
    apply checkPattern_ok in Hv. by rewrite Hv.
  - exact Hentry.
  - intros mux pre e post r Huri Hpre. by apply ServeHTTP_reaches.
Qed.

(** C9 (amended): on a non-empty table, a request with the empty path
    never reaches the case check, a match test or the not-found handler:
    the iteration of the first entry visited panics, with the index out of
    range when that entry's pattern compiles as a regular expression, and
    with the compilation error (raised first) when it does not. *)
Theorem empty_path_panics (mux : Mux) (order : list (string * muxEntry)) (r : Request) :
  iterates (m mux) order ->
  m mux <> ∅ ->
  RequestURI r <> "*" ->
  Path (url r) = "" ->
  exists p e rest,
    order = (p, e) :: rest
    /\ ServeHTTP mux order r =
       Panic (match Compile p with
              | Some _ => PIndexOutOfRange
              | None => PRegexpCompile p
              end).
Proof.
  intros Hit Hne Huri Hpath.
  destruct (iterates_nonempty _ _ Hit Hne) as (p & e & rest & ->).
  exists p, e, rest. split; [done|].
  apply (ServeHTTP_reaches mux [] rest (p, e)); [done|done|].
  unfold serveEntry. rewrite Hpath.
  destruct (Compile p) as [re|] eqn:Hc.
  - by rewrite (urlWithoutSlash_empty_path _ _ _ Hc).
  - by rewrite (urlWithoutSlash_uncompilable _ _ _ Hc).
Qed.

(** C10: a router with an empty table answers every request whose raw
    target is not ["*"] by calling the not-found handler with the request as
    it came; neither redirect is ever issued, whatever the path. *)
Theorem empty_table_not_found (mux : Mux) (order : list (string * muxEntry))
    (r : Request) (nf : nat) :
  m mux = ∅ ->
  notFound mux = Func nf ->
  iterates (m mux) order ->
  RequestURI r <> "*" ->
  ServeHTTP mux order r = Invoke nf r.
Proof.
  intros Hm Hnf Hit Huri. rewrite Hm in Hit. apply iterates_empty in Hit as ->.
  rewrite ServeHTTP_not_wildcard by done. simpl. by rewrite Hnf.
Qed.

(** The router [New] returns has an empty table. *)
Lemma New_not_found (h : HandlerFunc) (mux : Mux) (r : Request) :
  New h = ok mux ->
  RequestURI r <> "*" ->
  exists nf, h = Func nf /\ ServeHTTP mux [] r = Invoke nf r.
Proof.
  destruct h as [|nf]; [discriminate|]. intros [= <-] Huri.
  exists nf. split; [done|]. by rewrite ServeHTTP_not_wildcard.
Qed.

(** The wildcard target is answered before the table is looked at. *)
Lemma ServeHTTP_wildcard (mux : Mux) (order : list (string * muxEntry)) (r : Request) :
  RequestURI r = "*" ->
  ServeHTTP mux order r = BadRequest (ProtoAtLeast r 1 1).
Proof. intros H. unfold ServeHTTP. by rewrite H. Qed.

End DispatchProperties.

(** ** Dispatch: redirects and literal matches *)

Section Canonicalization.
Context `{RE : RegexpPkg} `{UC : UnicodePkg} `{UP : URLPkg}.

Lemma serveEntries_cons (r : Request) (pe : string * muxEntry)
    (l : list (string * muxEntry)) :
  serveEntries r (pe :: l) =
  match serveEntry r pe with
  | Some o => Some o
  | None => serveEntries r l
  end.
Proof. reflexivity. Qed.

Lemma serveEntries_fall_through (r : Request) (l : list (string * muxEntry)) :
  (forall p e, (p, e) ∈ l -> serveEntry r (p, e) = None) ->
  serveEntries r l = None.
Proof.
  induction l as [|[p e] l IH]; intros H; [done|]. rewrite serveEntries_cons.
  rewrite (H p e) by apply list_elem_of_here.
  apply IH. intros p' e' Hin. apply H. by apply list_elem_of_further.
Qed.

(** An entry that neither triggers a redirect nor matches lets the loop
    go on. *)
Lemma serveEntry_falls_through (r : Request) (p : string) (e : muxEntry) :
  is_Some (Compile p) ->
  Path (url r) <> "" ->
  ~ slashTriggers r p ->
  caseCheckPasses r ->
  ~ entryMatches r p e ->
  serveEntry r (p, e) = None.
Proof.
  intros [re Hc] Hne Hno Hcase Hnm.
  rewrite (serveEntry_after_slash_check _ _ _ _ Hc Hne Hno).
  rewrite (caseCheckPasses_cond _ Hcase).
  unfold entryMatches in Hnm. destruct (regexp e).
  - destruct (MatchString re (Path (url r))) eqn:Hm; [|done].
    destruct Hnm. by exists re.
  - by rewrite (string_eqb_false _ _ Hnm).
Qed.

Lemma serveEntry_literal_hit (r : Request) (e : muxEntry) :
  is_Some (Compile (Path (url r))) ->
  Path (url r) <> "" ->
  ~ slashTriggers r (Path (url r)) ->
  caseCheckPasses r ->
  regexp e = false ->
  serveEntry r (Path (url r), e) = Some (invoke (handler e) r).
Proof.
  intros [re Hc] Hne Hno Hcase Hlit.
  rewrite (serveEntry_after_slash_check _ _ _ _ Hc Hne Hno).
  rewrite (caseCheckPasses_cond _ Hcase), Hlit. by rewrite String.eqb_refl.
Qed.

Lemma serveEntry_slash_redirect (r : Request) (p stripped : string) (e : muxEntry)
    (re : Regexp) :
  Compile p = Some re ->
  endsWithSlash (Path (url r)) stripped ->
  stripped = p \/ MatchString re stripped = true ->
  serveEntry r (p, e) =
    Some (Redirect TrailingSlash
            (URL_String {| Path := stripped; RawQuery := RawQuery (url r) |})
            StatusPermanentRedirect).
Proof.
  intros Hc Hs Hm. unfold serveEntry.
  by rewrite (urlWithoutSlash_triggers _ _ _ _ Hc Hs Hm).
Qed.

(** C2 (amended): when the path ends with a slash and its slash-stripped
    form equals the pattern of an entry, or matches it as a regular
    expression, and dispatch reaches that entry (no entry visited before it
    ends the loop by a panic, a redirect or a match) and the pattern
    compiles as a regular expression, the response is the permanent redirect
    (308) to the slash-stripped path with the query of the request; no
    handler is called. *)
Theorem slash_redirect (mux : Mux) (pre post : list (string * muxEntry))
    (p : string) (e : muxEntry) (r : Request) (stripped : string) (re : Regexp) :
  RequestURI r <> "*" ->
  endsWithSlash (Path (url r)) stripped ->
  serveEntries r pre = None ->
  Compile p = Some re ->
  stripped = p \/ MatchString re stripped = true ->
  ServeHTTP mux (pre ++ (p, e) :: post) r =
    Redirect TrailingSlash
      (URL_String {| Path := stripped; RawQuery := RawQuery (url r) |})
      StatusPermanentRedirect.
Proof.
  intros Huri Hs Hpre Hc Hm. apply ServeHTTP_reaches; [done|done|].
  by apply (serveEntry_slash_redirect r p stripped e re).
Qed.

(** X19: When the path ends with a slash and passes the case check,
    every pattern visited compiles and no entry accepts the path as it
    came, and the slash-stripped path equals or matches the pattern of some
    entry, the permanent redirect to the stripped path is the outcome in
    every iteration order. *)
Lemma slash_redirect_any_order (mux : Mux) (order : list (string * muxEntry))
    (r : Request) (stripped : string) :
  RequestURI r <> "*" ->
  endsWithSlash (Path (url r)) stripped ->
  caseCheckPasses r ->
  (forall p e, (p, e) ∈ order -> is_Some (Compile p) /\ ~ entryMatches r p e) ->
  (exists p e, (p, e) ∈ order /\ equalsOrMatches p stripped) ->
  ServeHTTP mux order r =
    Redirect TrailingSlash
      (URL_String {| Path := stripped; RawQuery := RawQuery (url r) |})
      StatusPermanentRedirect.
Proof.
  intros Huri Hs Hcase Hall Hex.
  assert (Path (url r) <> "") as Hne.
  { intros Heq. unfold endsWithSlash in Hs. by rewrite Heq in Hs. }
  induction order as [|[p e] order IH].
  { destruct Hex as (p & e & Hin & _). by apply elem_of_nil in Hin. }
  destruct (Hall p e (list_elem_of_here _ _)) as [[re Hc] Hnm].
  destruct (decide (stripped = p \/ MatchString re stripped = true)) as [Hm|Hm].
  - apply (ServeHTTP_reaches mux [] order (p, e)); [done|done|].
    by apply (serveEntry_slash_redirect r p stripped e re).
  - assert (~ slashTriggers r p) as Hno.
    { intros (s' & Hs' & Heq). unfold endsWithSlash in Hs, Hs'.
      rewrite Hs in Hs'. injection Hs' as <-. apply Hm.
      destruct Heq as [->|(re' & Hc' & Hm')]; [by left|].
      right. rewrite Hc in Hc'. by injection Hc' as <-. }
    rewrite ServeHTTP_not_wildcard by done. rewrite serveEntries_cons.
    rewrite (serveEntry_falls_through r p e) by eauto.
    rewrite <- (ServeHTTP_not_wildcard mux) by done. apply IH.
    + intros p' e' Hin. apply Hall. by apply list_elem_of_further.
    + destruct Hex as (p' & e' & Hin & Heq). exists p', e'. split; [|done].
      apply elem_of_cons in Hin as [[= -> ->]|Hin]; [|done].
      destruct Hm. destruct Heq as [->|(re' & Hc' & Hm')]; [by left|].
      right. rewrite Hc in Hc'. by injection Hc' as <-.
Qed.

Lemma invoke_not_redirect (h : HandlerFunc) (r : Request) (s : RedirectSite)
    (t : string) (c : Z) :
  invoke h r <> Redirect s t c.
Proof. by destruct h. Qed.

Lemma addRegexpSubmatchesToContext_not_redirect (h : HandlerFunc) (re : Regexp)
    (r : Request) (s : RedirectSite) (t : string) (c : Z) :
  addRegexpSubmatchesToContext h re r <> Redirect s t c.
Proof.
  unfold addRegexpSubmatchesToContext.
  destruct (bindSubmatches _ _ _ _); [done|apply invoke_not_redirect].
Qed.

Lemma serveEntry_no_case_redirect (r : Request) (pe : string * muxEntry)
    (t : string) (c : Z) :
  caseCheckPasses r -> serveEntry r pe <> Some (Redirect LowerCase t c).
Proof.
  intros Hcase. destruct pe as [p e]. unfold serveEntry.
  destruct (urlWithoutSlash _ _ _) as [msg|[u [|]]]; [done|done|].
  rewrite (caseCheckPasses_cond _ Hcase). destruct (regexp e).
  - destruct (MustCompile p) as [msg|re]; [done|].
    destruct (MatchString re _); [|done].
    intros [= H]. by apply addRegexpSubmatchesToContext_not_redirect in H.
  - destruct (String.eqb _ _); [|done].
    intros [= H]. by apply invoke_not_redirect in H.
Qed.

(** C4 (amended): with a method other than CONNECT and a path containing
    an upper-case letter, the iteration of the first entry visited issues
    the permanent redirect (308) to the lower-cased request URL, provided
    that entry's pattern compiles as a regular expression and its
    trailing-slash check does not ask for a redirect; conversely a path
    whose letters are all lower case never leads to this redirect. *)
Theorem case_redirect (mux : Mux) (r : Request) :
  (forall p e rest re,
     RequestURI r <> "*" ->
     Method r <> MethodConnect ->
     hasUpper (Path (url r)) = true ->
     Compile p = Some re ->
     ~ slashTriggers r p ->
     ServeHTTP mux ((p, e) :: rest) r =
       Redirect LowerCase (ToLower (URL_String (url r))) StatusPermanentRedirect)
  /\ (isLower (Path (url r)) = true ->
      forall order t c, ServeHTTP mux order r <> Redirect LowerCase t c).
Proof.
  split.
  - intros p e rest re Huri Hmeth Hup Hc Hno.
    apply (ServeHTTP_reaches mux [] rest (p, e)); [done|done|].
    rewrite (serveEntry_after_slash_check _ _ _ _ Hc (hasUpper_nonempty _ Hup) Hno).
    rewrite (string_eqb_false _ _ Hmeth), (hasUpper_not_lower _ Hup). done.
  - intros Hlow order t c. unfold ServeHTTP.
    destruct (String.eqb (RequestURI r) "*"); [done|].
    assert (caseCheckPasses r) as Hcase by (by right).
    induction order as [|pe order IH]; [apply invoke_not_redirect|].
    rewrite serveEntries_cons.
    destruct (serveEntry r pe) as [o|] eqn:Hpe; [|exact IH].
    intros ->. by apply (serveEntry_no_case_redirect r pe t c Hcase).
Qed.

(** C6 (amended): take a router with literal entries only whose patterns
    all compile as regular expressions, and a request with a non-empty path
    that passes the case check and for which no entry's trailing-slash check
    asks for a redirect.  In every iteration order, a path equal to a
    registered pattern calls that pattern's handler and any other path calls
    the not-found handler, each with the request as it came. *)
Theorem literal_dispatch (mux : Mux) (order : list (string * muxEntry)) (r : Request) :
  iterates (m mux) order ->
  (forall p e, m mux !! p = Some e -> regexp e = false) ->
  (forall p e, m mux !! p = Some e -> is_Some (Compile p)) ->
  (forall p e, m mux !! p = Some e -> ~ slashTriggers r p) ->
  RequestURI r <> "*" ->
  Path (url r) <> "" ->
  caseCheckPasses r ->
  match m mux !! Path (url r) with
  | Some e => ServeHTTP mux order r = invoke (handler e) r
  | None => ServeHTTP mux order r = invoke (notFound mux) r
  end.
Proof.
  intros Hit Hlit Hcomp Hno Huri Hne Hcase.
  assert (forall p e, (p, e) ∈ order -> p <> Path (url r) ->
                      serveEntry r (p, e) = None) as Hother.
  { intros p e Hin Hp. apply (iterates_elem_of _ _ _ _ Hit) in Hin.
    apply serveEntry_falls_through; eauto.
    unfold entryMatches. rewrite (Hlit _ _ Hin). congruence. }
  destruct (m mux !! Path (url r)) as [e|] eqn:He.
  - assert ((Path (url r), e) ∈ order) as Hin by (by apply (iterates_elem_of _ _ _ _ Hit)).
    apply list_elem_of_split in Hin as (pre & post & ->).
    assert (NoDup ((pre ++ (Path (url r), e) :: post).*1)) as Hnd.
    { unfold iterates in Hit. rewrite Hit. apply NoDup_fst_map_to_list. }
    rewrite fmap_app, fmap_cons in Hnd. apply NoDup_app in Hnd as (_ & Hpre & _).
    apply ServeHTTP_reaches; [done| |].
    + apply serveEntries_fall_through. intros p e' Hin.
      apply Hother; [apply elem_of_app; by left|].
      intros ->. apply (Hpre (Path (url r))).
      * by apply (list_elem_of_fmap_2 fst _ (Path (url r), e')).
      * simpl. apply list_elem_of_here.
    + apply serveEntry_literal_hit; eauto.
  - rewrite ServeHTTP_not_wildcard by done.
    rewrite serveEntries_fall_through; [done|].
    intros p e Hin. apply (Hother _ _ Hin). intros ->.
    apply (iterates_elem_of _ _ _ _ Hit) in Hin. congruence.
Qed.

End Canonicalization.

(** ** Dispatch: submatches of a regular-expression entry *)

Lemma WithContext_id (r : Request) : WithContext r (context r) = r.
Proof. by destruct r. Qed.

Lemma WithContext_WithValue (r : Request) (name v : string) (ctx : Context) :
  WithContext (WithValue r name v) ctx = WithContext r ctx.
Proof. reflexivity. Qed.



Lemma elem_of_rev {A} (l : list A) (x : A) : x ∈ rev l <-> x ∈ l.
Proof. rewrite !list_elem_of_In. symmetry. apply in_rev. Qed.

Section Submatches.
Context `{RE : RegexpPkg} `{UC : UnicodePkg} `{UP : URLPkg}.


Lemma bindSubmatches_ok (names : list string) (i : nat) (submatches : list string)
    (r : Request) :
  (i + length names <= length submatches)%nat ->
  bindSubmatches i names submatches r
  = ok (WithContext r (rev (namedBindings i names submatches) ++ context r)).
Proof.
  revert i r; induction names as [|name rest IH]; intros i r Hlen; simpl.
  { by rewrite WithContext_id. }
  simpl in Hlen.
  destruct i as [|i]; simpl.
  { apply IH. lia. }
  destruct (String.eqb name ""); simpl.
  { apply IH. lia. }
  destruct (submatches !! S i) as [v|] eqn:Hv.
  - rewrite IH by lia. rewrite WithContext_WithValue. simpl.
    by rewrite <- app_assoc.
  - apply lookup_ge_None in Hv. lia.
Qed.


End Submatches.

(** ** Mount *)

(** Every entry [Mount] adds is a literal entry. *)
Lemma Mount_inserts_literals (prefix : string) (order : list (string * muxEntry))
    (mux mux' : Mux) (result : Go unit) :
  Mount prefix order mux = (mux', result) ->
  forall p e, m mux' !! p = Some e -> m mux !! p = Some e \/ regexp e = false.
Proof.
  revert mux; induction order as [|[pattern e0] order IH]; intros mux; simpl.
  { intros [= <- _] p e H. by left. }
  destruct (HandleFunc (prefix +:+ pattern) (handler e0) mux) as [mux1 res] eqn:Hreg.
  assert (forall p e, m mux1 !! p = Some e -> m mux !! p = Some e \/ regexp e = false)
    as Hstep.
  { unfold HandleFunc, register in Hreg.
    destruct (checkPattern _ _); [injection Hreg as <- _; by left|].
    destruct (handler e0); [injection Hreg as <- _; by left|].
    destruct (m mux !! (prefix +:+ pattern)) eqn:Hl; [injection Hreg as <- _; by left|].
    injection Hreg as <- _. simpl. intros p e.
    destruct (decide (prefix +:+ pattern = p)) as [<-|Hp].
    - rewrite lookup_insert_eq. intros [= <-]. by right.
    - rewrite lookup_insert_ne by done. by left. }
  destruct res as [msg|[]].
  - intros [= <- _]. exact Hstep.
  - intros Hrest p e Hin.
    destruct (IH _ Hrest p e Hin) as [H|H]; [by apply Hstep|by right].
Qed.

(** ** Examples on the concrete packages *)

#[local] Existing Instance GoLib.regexp_pkg.
#[local] Existing Instance GoLib.unicode_pkg.
#[local] Existing Instance GoLib.url_pkg.

Lemma router_singleton_iterates (p : string) (e : muxEntry) :
  iterates (m (Examples.router [(p, e)])) [(p, e)].
Proof. apply iterates_singleton. Qed.

Lemma router_singleton_lookup (k p : string) (v e : muxEntry) :
  m (Examples.router [(k, v)]) !! p = Some e -> p = k /\ e = v.
Proof.
  simpl. intros H. apply lookup_insert_Some in H as [[-> ->]|[_ H]]; [done|].
  by rewrite lookup_empty in H.
Qed.

Lemma router_singleton_nonempty (k : string) (v : muxEntry) :
  m (Examples.router [(k, v)]) <> ∅.
Proof. simpl. apply insert_non_empty. Qed.

(** C1: [Mount] registers the entry of a regular-expression source
    pattern through [HandleFunc], so the mounted entry is a literal one,
    where the description of mounting keeps the flag.  The source router
    serves [/42] with [id] bound; the destination answers [/users/42] with
    the not-found handler; a source pattern that is not of literal shape
    cannot be mounted at all. *)
Theorem Mount_drops_regexp_flag :
  let source := [(Examples.id_pattern, Examples.regular 1)] in
  let mounted := [("/users/(?P<id>[0-9]+)", Examples.literal 1)] in
  Mount "/users" source (Examples.router []) = (Examples.router mounted, ok tt)
  /\ Mount_spec "/users" source (Examples.router [])
     = (Examples.router [("/users/(?P<id>[0-9]+)", Examples.regular 1)], ok tt)
  /\ ServeHTTP (Examples.router source) source (Examples.get "/42" "")
     = Invoke 1 (WithContext (Examples.get "/42" "") [("id", "42")])
  /\ ServeHTTP (Examples.router mounted) mounted (Examples.get "/users/42" "")
     = Invoke 0 (Examples.get "/users/42" "")
  /\ Mount "" [("^/a$", Examples.regular 1)] (Examples.router [])
     = (Examples.router [], panic PMustBeginWithSlash).
Proof. repeat split; vm_compute; reflexivity. Qed.

Lemma uncompilable_literal_panics_witness :
  Compile "/a(" = None
  /\ register "/a(" (Func 1) false (Examples.router [])
     = (Examples.router [("/a(", Examples.literal 1)], ok tt)
  /\ ServeHTTP (Examples.router [("/a(", Examples.literal 1)])
       [("/a(", Examples.literal 1)] (Examples.get "/a" "")
     = Panic (PRegexpCompile "/a(").
Proof.
  assert (Compile "/a(" = None) as Hc by (vm_compute; reflexivity).
  destruct (uncompilable_literal_panics "/a(" Hc) as (Hreg & _ & Hserve).
  split; [exact Hc|split].
  - apply (Hreg (Examples.router []) 1%nat); [|reflexivity].
    split; [discriminate|]. intros _. right. split; [reflexivity|discriminate].
  - apply (Hserve (Examples.router [("/a(", Examples.literal 1)]) []
             (Examples.literal 1) [] (Examples.get "/a" ""));
      [discriminate|reflexivity].
Defined.

Lemma empty_path_panics_witness :
  ServeHTTP (Examples.router [("/a", Examples.literal 1)])
    [("/a", Examples.literal 1)] (Examples.connect "example.com:443")
  = Panic PIndexOutOfRange.
Proof.
  destruct (empty_path_panics (Examples.router [("/a", Examples.literal 1)])
              [("/a", Examples.literal 1)] (Examples.connect "example.com:443"))
    as (p & e & rest & Horder & Hserve).
  - apply router_singleton_iterates.
  - apply router_singleton_nonempty.
  - discriminate.
  - reflexivity.
  - injection Horder as <- <- <-. exact Hserve.
Defined.

(** Without the proviso the statement fails: the pattern of the first
    entry is compiled before the path is indexed. *)
Lemma empty_path_as_stated_fails : ~ empty_path_as_stated.
Proof.
  intros H.
  specialize (H (Examples.router [("/a(", Examples.literal 1)])
                [("/a(", Examples.literal 1)] (Examples.connect "example.com:443")
                (router_singleton_iterates _ _) (router_singleton_nonempty _ _)).
  assert (RequestURI (Examples.connect "example.com:443") <> "*") as Huri by discriminate.
  specialize (H Huri eq_refl). vm_compute in H. discriminate H.
Qed.

Lemma empty_table_not_found_witness :
  ServeHTTP (Examples.router []) [] (Examples.get "/A/" "")
  = Invoke 0 (Examples.get "/A/" "").
Proof.
  apply (empty_table_not_found (Examples.router []) [] (Examples.get "/A/" "") 0%nat).
  - reflexivity.
  - reflexivity.
  - unfold iterates. simpl. rewrite map_to_list_empty. reflexivity.
  - discriminate.
Defined.

Lemma slash_redirect_witness :
  ServeHTTP (Examples.router [("/a", Examples.literal 1)])
    [("/a", Examples.literal 1)] (Examples.get "/a/" "q=1")
  = Redirect TrailingSlash "/a?q=1" StatusPermanentRedirect.
Proof.
  destruct (Compile "/a") as [re|] eqn:Hc; [|by vm_compute in Hc].
  assert (RequestURI (Examples.get "/a/" "q=1") <> "*") as Huri by discriminate.
  assert (endsWithSlash (Path (url (Examples.get "/a/" "q=1"))) "/a") as Hs
    by reflexivity.
  exact (slash_redirect (Examples.router [("/a", Examples.literal 1)]) [] []
           "/a" (Examples.literal 1) (Examples.get "/a/" "q=1") "/a" re
           Huri Hs eq_refl Hc (or_introl eq_refl)).
Defined.

(** The same redirect through a regular-expression entry. *)
Example slash_redirect_regexp :
  ServeHTTP (Examples.router [(Examples.id_pattern, Examples.regular 1)])
    [(Examples.id_pattern, Examples.regular 1)] (Examples.get "/42/" "")
  = Redirect TrailingSlash "/42" StatusPermanentRedirect.
Proof. vm_compute. reflexivity. Qed.

(** Without the proviso the statement fails: the slash-stripped path
    equals a registered literal whose text is no regular expression. *)
Lemma slash_redirect_as_stated_fails : ~ slash_redirect_as_stated.
Proof.
  intros H.
  specialize (H (Examples.router [("/a(", Examples.literal 1)])
                [("/a(", Examples.literal 1)] (Examples.get "/a(/" "") "/a("
                (router_singleton_iterates _ _)).
  assert (RequestURI (Examples.get "/a(/" "") <> "*") as Huri by discriminate.
  assert (endsWithSlash (Path (url (Examples.get "/a(/" ""))) "/a(") as Hs
    by reflexivity.
  assert (exists p e, m (Examples.router [("/a(", Examples.literal 1)]) !! p = Some e
                      /\ equalsOrMatches p "/a(") as Hex.
  { exists "/a(", (Examples.literal 1). split; [reflexivity|by left]. }
  specialize (H Huri Hs Hex). vm_compute in H. discriminate H.
Qed.

(** An earlier entry can also take the request away: a regular
    expression that matches the path with its slash is served first. *)
Example slash_redirect_order_dependent :
  let table := [("b/$", Examples.regular 1); ("/b", Examples.literal 2)] in
  ServeHTTP (Examples.router table) table (Examples.get "/b/" "")
  = Invoke 1 (Examples.get "/b/" "")
  /\ ServeHTTP (Examples.router table) (rev table) (Examples.get "/b/" "")
     = Redirect TrailingSlash "/b" StatusPermanentRedirect.
Proof. split; vm_compute; reflexivity. Qed.

Lemma case_redirect_witness :
  ServeHTTP (Examples.router [("/a", Examples.literal 1)])
    [("/a", Examples.literal 1)] (Examples.get "/A" "")
  = Redirect LowerCase "/a" StatusPermanentRedirect
  /\ ServeHTTP (Examples.router [("/a", Examples.literal 1)])
       [("/a", Examples.literal 1)] (Examples.get "/a" "")
     <> Redirect LowerCase "/a" StatusPermanentRedirect.
Proof.
  destruct (Compile "/a") as [re|] eqn:Hc; [|by vm_compute in Hc].
  assert (RequestURI (Examples.get "/A" "") <> "*") as Huri by discriminate.
  assert (Method (Examples.get "/A" "") <> MethodConnect) as Hmeth by discriminate.
  assert (~ slashTriggers (Examples.get "/A" "") "/a") as Hno.
  { intros (s & Hs & _). vm_compute in Hs. discriminate Hs. }
  split.
  - exact (proj1 (case_redirect (Examples.router [("/a", Examples.literal 1)])
                    (Examples.get "/A" ""))
             "/a" (Examples.literal 1) [] re Huri Hmeth eq_refl Hc Hno).
  - exact (proj2 (case_redirect (Examples.router [("/a", Examples.literal 1)])
                    (Examples.get "/a" ""))
             eq_refl [("/a", Examples.literal 1)] "/a" StatusPermanentRedirect).
Defined.

(** Without the proviso the statement fails: the pattern of the first
    entry is compiled before the case check. *)
Lemma case_redirect_as_stated_fails : ~ case_redirect_as_stated.
Proof.
  intros [H _].
  specialize (H (Examples.router [("/a(", Examples.literal 1)])
                [("/a(", Examples.literal 1)] (Examples.get "/A" "")
                (router_singleton_iterates _ _) (router_singleton_nonempty _ _)).
  assert (RequestURI (Examples.get "/A" "") <> "*") as Huri by discriminate.
  assert (Method (Examples.get "/A" "") <> MethodConnect) as Hmeth by discriminate.
  assert (hasUpper (Path (url (Examples.get "/A" ""))) = true) as Hup by reflexivity.
  specialize (H Huri Hmeth Hup).
  assert (ServeHTTP (Examples.router [("/a(", Examples.literal 1)])
            [("/a(", Examples.literal 1)] (Examples.get "/A" "")
          = Panic (PRegexpCompile "/a(")) as Hserve by (vm_compute; reflexivity).
  rewrite Hserve in H. discriminate H. intros t c. discriminate.
Qed.

(** A letter without case is a letter that is not lower case: a path
    with one and no upper-case letter is redirected to itself. *)
Example uncased_letter_redirects :
  let path := "/" +:+ Examples.zhong in
  runes path = [47; 0x4E2D]
  /\ hasUpper path = false
  /\ isLower path = false
  /\ ServeHTTP (Examples.router [("/a", Examples.literal 1)])
       [("/a", Examples.literal 1)] (Examples.get path "")
     = Redirect LowerCase "/%e4%b8%ad" StatusPermanentRedirect.
Proof. repeat split; vm_compute; reflexivity. Qed.

(** With only ["/"] registered: the path ["/"] is served by its handler
    and the path ["/a"] by the not-found handler. *)
Lemma literal_dispatch_witness :
  ServeHTTP (Examples.router [("/", Examples.literal 1)])
    [("/", Examples.literal 1)] (Examples.get "/" "")
  = Invoke 1 (Examples.get "/" "")
  /\ ServeHTTP (Examples.router [("/", Examples.literal 1)])
       [("/", Examples.literal 1)] (Examples.get "/a" "")
     = Invoke 0 (Examples.get "/a" "").
Proof.
  pose (mux := Examples.router [("/", Examples.literal 1)]).
  assert (forall p e, m mux !! p = Some e -> regexp e = false) as Hlit.
  { intros p e H. by apply router_singleton_lookup in H as [-> ->]. }
  assert (forall p e, m mux !! p = Some e -> is_Some (Compile p)) as Hcomp.
  { intros p e H. apply router_singleton_lookup in H as [-> ->].
    vm_compute. eexists. reflexivity. }
  assert (forall r, Path (url r) = "/" \/ Path (url r) = "/a" ->
            forall p e, m mux !! p = Some e -> ~ slashTriggers r p) as Hno.
  { intros r Hr p e H. apply router_singleton_lookup in H as [-> ->].
    intros (s & Hs & Heq). unfold endsWithSlash in Hs.
    destruct Hr as [Hr|Hr]; rewrite Hr in Hs; vm_compute in Hs; [|discriminate Hs].
    injection Hs as <-. destruct Heq as [Heq|(re & Hc & Hm)]; [discriminate Heq|].
    vm_compute in Hc. injection Hc as <-. vm_compute in Hm. discriminate Hm. }
  split.
  - exact (literal_dispatch mux [("/", Examples.literal 1)] (Examples.get "/" "")
             (router_singleton_iterates _ _) Hlit Hcomp
             (Hno (Examples.get "/" "") (or_introl eq_refl))
             ltac:(discriminate) ltac:(discriminate) (or_intror eq_refl)).
  - exact (literal_dispatch mux [("/", Examples.literal 1)] (Examples.get "/a" "")
             (router_singleton_iterates _ _) Hlit Hcomp
             (Hno (Examples.get "/a" "") (or_intror eq_refl))
             ltac:(discriminate) ltac:(discriminate) (or_intror eq_refl)).
Defined.

(** Without the provisos the statement fails: a path that equals no
    registered pattern but ends with a slash after one is redirected, not
    passed to the not-found handler. *)
Lemma literal_dispatch_as_stated_fails : ~ literal_dispatch_as_stated.
Proof.
  intros H.
  specialize (H (Examples.router [("/a", Examples.literal 1)])
                [("/a", Examples.literal 1)] (Examples.get "/a/" "")
                (router_singleton_iterates _ _)).
  assert (forall p e, m (Examples.router [("/a", Examples.literal 1)]) !! p = Some e ->
                      regexp e = false) as Hlit.
  { intros p e He. by apply router_singleton_lookup in He as [-> ->]. }
  assert (RequestURI (Examples.get "/a/" "") <> "*") as Huri by discriminate.
  specialize (H Hlit Huri). vm_compute in H. discriminate H.
Qed.

(** The other ways the unamended statement fails: an upper-case pattern
    can be registered but its path is redirected, and the tests' literal
    patterns are served as expected. *)
Example literal_upper_case_redirected :
  ServeHTTP (Examples.router [("/A", Examples.literal 1)])
    [("/A", Examples.literal 1)] (Examples.get "/A" "")
  = Redirect LowerCase "/a" StatusPermanentRedirect.
Proof. vm_compute. reflexivity. Qed.

Example literal_two_entries :
  let table := [("/a/b", Examples.literal 1); ("/a/b/c", Examples.literal 2)] in
  ServeHTTP (Examples.router table) table (Examples.get "/a/b/c" "")
  = Invoke 2 (Examples.get "/a/b/c" "")
  /\ ServeHTTP (Examples.router table) (rev table) (Examples.get "/a/b" "")
     = Invoke 1 (Examples.get "/a/b" "").
Proof. split; vm_compute; reflexivity. Qed.


(** The cases of the package tests: a single digit takes the first digit
    only; an unnamed pattern binds nothing; a group that takes no part in
    the match is bound to the empty string. *)
Example regexp_single_digit :
  ServeHTTP (Examples.router [(Examples.digit_pattern, Examples.regular 1)])
    [(Examples.digit_pattern, Examples.regular 1)] (Examples.get "/12" "")
  = Invoke 1 (WithContext (Examples.get "/12" "") [("id", "1")]).
Proof. vm_compute. reflexivity. Qed.

Example regexp_no_named_group :
  ServeHTTP (Examples.router [("^/a$", Examples.regular 1)])
    [("^/a$", Examples.regular 1)] (Examples.get "/a" "")
  = Invoke 1 (Examples.get "/a" "").
Proof. vm_compute. reflexivity. Qed.

Example regexp_group_not_participating :
  let p := "/(?P<x>a)?(?P<y>b*)c([0-9])" in
  ServeHTTP (Examples.router [(p, Examples.regular 1)])
    [(p, Examples.regular 1)] (Examples.get "/bbc7" "")
  = Invoke 1 (WithContext (Examples.get "/bbc7" "") [("y", "bb"); ("x", "")]).
Proof. vm_compute. reflexivity. Qed.

Example regexp_no_match_not_found :
  ServeHTTP (Examples.router [(Examples.digit_pattern, Examples.regular 1)])
    [(Examples.digit_pattern, Examples.regular 1)] (Examples.get "/a" "")
  = Invoke 0 (Examples.get "/a" "").
Proof. vm_compute. reflexivity. Qed.

Example wildcard_bad_request :
  ServeHTTP (Examples.router [("/a", Examples.literal 1)])
    [("/a", Examples.literal 1)]
    {| Method := "OPTIONS"; RequestURI := "*"; ProtoMajor := 1; ProtoMinor := 1;
       url := {| Path := "*"; RawQuery := "" |}; context := [] |}
  = BadRequest true.
Proof. reflexivity. Qed.

(** ** The concrete matcher keeps one register per group

    So on [GoLib] a successful [FindStringSubmatch] has as many entries as
    [SubexpNames], which is what indexing [submatches[i]] relies on. *)

Lemma orElse_Some (a b : option GoLib.Caps) (c : GoLib.Caps) :
  GoLib.orElse a b = Some c -> a = Some c \/ b = Some c.
Proof. destruct a; simpl; intros H; [by left|by right]. Qed.

Lemma eat_keepsLength (n : nat) (f : ascii -> bool) (k : GoLib.Cont) :
  keepsLength n k -> keepsLength n (fun pos s caps => GoLib.eat f pos s caps k).
Proof.
  intros Hk pos s caps c Hlen. unfold GoLib.eat.
  destruct s as [|ch s]; [discriminate|]. destruct (f ch); [|discriminate].
  by apply Hk.
Qed.

Lemma star_loop_keepsLength (n : nat)
    (step : nat -> string -> GoLib.Caps -> GoLib.Cont -> option GoLib.Caps)
    (greedy : bool) (k : GoLib.Cont) (fuel : nat) :
  (forall k', keepsLength n k' ->
              keepsLength n (fun pos s caps => step pos s caps k')) ->
  keepsLength n k ->
  keepsLength n (GoLib.star_loop step greedy k fuel).
Proof.
  intros Hstep Hk. induction fuel as [|fuel IH]; [exact Hk|].
  intros pos s caps c Hlen H. simpl in H.
  assert (forall x, step pos s caps
            (fun pos' s' caps' =>
               if Nat.leb pos' pos then None
               else GoLib.star_loop step greedy k fuel pos' s' caps') = Some x ->
            length x = n) as Hmore.
  { intros x Hx. refine (Hstep _ _ pos s caps x Hlen Hx).
    intros pos' s' caps' c' Hlen' Hc'.
    destruct (Nat.leb pos' pos); [discriminate|]. by apply (IH pos' s' caps'). }
  destruct greedy; apply orElse_Some in H as [H|H]; eauto.
Qed.

Lemma run_keepsLength (n : nat) (r : GoLib.re) (k : GoLib.Cont) :
  keepsLength n k -> keepsLength n (fun pos s caps => GoLib.run r pos s caps k).
Proof.
  revert k; induction r as [| ch | | neg ranges | | | a IHa b IHb | a IHa b IHb
                            | g a IHa | g a IHa | g a IHa | i a IHa];
    intros k Hk; simpl.
  - exact Hk.
  - by apply eat_keepsLength.
  - by apply eat_keepsLength.
  - by apply eat_keepsLength.
  - intros pos s caps c Hlen. destruct (Nat.eqb pos 0); [by apply Hk|discriminate].
  - intros pos s caps c Hlen. destruct s; [by apply Hk|discriminate].
  - apply IHa. by apply IHb.
  - intros pos s caps c Hlen H. apply orElse_Some in H as [H|H].
    + by apply (IHa k Hk pos s caps).
    + by apply (IHb k Hk pos s caps).
  - intros pos s caps c Hlen.
    exact (star_loop_keepsLength n (GoLib.run a) g k (S (String.length s)) IHa Hk
             pos s caps c Hlen).
  - apply IHa. intros pos s caps c Hlen.
    exact (star_loop_keepsLength n (GoLib.run a) g k (S (String.length s)) IHa Hk
             pos s caps c Hlen).
  - intros pos s caps c Hlen H.
    destruct g; apply orElse_Some in H as [H|H];
      (by apply (IHa k Hk pos s caps)) || (by apply (Hk pos s caps)).
  - intros pos s caps c Hlen H.
    refine (IHa (fun pos' s' caps' => k pos' s' (<[i := Some (pos, pos')]> caps'))
              _ pos s caps c Hlen H).
    intros pos' s' caps' c' Hlen' Hc'.
    apply (Hk pos' s' (<[i := Some (pos, pos')]> caps') c'); [|done].
    unfold GoLib.Caps in *. by rewrite length_insert.
Qed.

Lemma search_length (p : GoLib.prog) (pos : nat) (s : string) (c : GoLib.Caps) :
  GoLib.search p pos s = Some c -> length c = S (length (GoLib.names p)).
Proof.
  assert (forall pos0 s0 c0,
            GoLib.run (GoLib.root p) pos0 s0
              (replicate (S (length (GoLib.names p))) None)
              (fun pos' _ caps' => Some (<[0%nat := Some (pos0, pos')]> caps'))
            = Some c0 ->
            length c0 = S (length (GoLib.names p))) as Hhere.
  { intros pos0 s0 c0 Hrun.
    refine (run_keepsLength _ (GoLib.root p) _ _ pos0 s0 _ c0 _ Hrun).
    - intros pos' s' caps' c' Hlen [= <-]. unfold GoLib.Caps in *.
      by rewrite length_insert.
    - by rewrite length_replicate. }
  revert pos; induction s as [|ch s IH]; intros pos; simpl;
    destruct (GoLib.run _ _ _ _ _) as [c'|] eqn:Hrun.
  - intros [= <-]. by apply (Hhere pos "").
  - discriminate.
  - intros [= <-]. by apply (Hhere pos (String ch s)).
  - apply IH.
Qed.

(** Whenever the concrete [MatchString] succeeds, [FindStringSubmatch]
    has one entry per name. *)
Lemma GoLib_submatch_length (re : Regexp) (s : string) :
  MatchString re s = true ->
  length (FindStringSubmatch re s) = length (SubexpNames re).
Proof.
  simpl. unfold GoLib.matchString, GoLib.findStringSubmatch, GoLib.subexpNames.
  destruct (GoLib.search re 0 s) as [c|] eqn:Hs; [|discriminate].
  intros _. rewrite length_map. simpl. by apply (search_length re 0%nat s).
Qed.

(** * Further properties of registration and mounting *)

Lemma register_ok_inv (p : string) (h : HandlerFunc) (isRegexp : bool)
    (mux mux' : Mux) :
  register p h isRegexp mux = (mux', ok tt) ->
  validPattern p isRegexp /\ h <> NilFunc /\ m mux !! p = None
  /\ mux' = set_m mux (<[p := MuxEntry h isRegexp]> (m mux)).
Proof.
  unfold register. destruct (checkPattern p isRegexp) as [msg|[]] eqn:Hc; [discriminate|].
  destruct h as [|id]; [discriminate|].
  destruct (m mux !! p) eqn:Hl; [discriminate|]. intros [= <-].
  split; [by apply checkPattern_ok|]. done.
Qed.

Lemma register_panic_inv (p : string) (h : HandlerFunc) (isRegexp : bool)
    (mux mux' : Mux) (msg : PanicMsg) :
  register p h isRegexp mux = (mux', panic msg) -> mux' = mux.
Proof.
  intros H. pose proof (register_fails_unchanged p h isRegexp mux msg) as Hu.
  rewrite H in Hu. simpl in Hu. by apply Hu.
Qed.

(** X1: A successful registration is an insertion of a new key: the pattern
    then maps to the handler and the flag given, every other pattern maps to
    what it did, the table has one more entry and the not-found handler is
    the same; and it only succeeds for a fresh pattern that passes the
    pattern checks, with a non-nil handler. *)
Theorem register_lookup (p : string) (h : HandlerFunc) (isRegexp : bool)
    (mux mux' : Mux) :
  register p h isRegexp mux = (mux', ok tt) ->
  m mux' !! p = Some (MuxEntry h isRegexp)
  /\ (forall q, q <> p -> m mux' !! q = m mux !! q)
  /\ size (m mux') = S (size (m mux))
  /\ notFound mux' = notFound mux
  /\ m mux !! p = None /\ h <> NilFunc /\ validPattern p isRegexp.
Proof.
  intros H. apply register_ok_inv in H as (Hv & Hh & Hfresh & ->). simpl.
  split; [apply lookup_insert_eq|].
  split; [intros q Hq; by apply lookup_insert_ne|].
  split; [by apply map_size_insert_None|]. done.
Qed.

Lemma register_lookup_witness :
  let mux := Examples.router [("/a", Examples.literal 1)] in
  let mux' := Examples.router [("/b", Examples.regular 2); ("/a", Examples.literal 1)] in
  m mux' !! "/b" = Some (Examples.regular 2)
  /\ m mux' !! "/a" = m mux !! "/a"
  /\ size (m mux') = 2%nat.
Proof.
  intros mux mux'.
  assert (register "/b" (Func 2) true mux = (mux', ok tt)) as H
    by (vm_compute; reflexivity).
  destruct (register_lookup "/b" (Func 2) true mux mux' H) as (Hp & Hq & Hsize & _).
  split; [exact Hp|]. split; [apply Hq; discriminate|]. exact Hsize.
Defined.

(** No call of [register] removes or changes an entry. *)
Lemma register_preserves_entries (p : string) (h : HandlerFunc) (isRegexp : bool)
    (mux : Mux) (q : string) (e : muxEntry) :
  m mux !! q = Some e -> m (fst (register p h isRegexp mux)) !! q = Some e.
Proof.
  intros Hq. destruct (register p h isRegexp mux) as [mux' [msg|[]]] eqn:H; simpl.
  - by apply register_panic_inv in H as ->.
  - apply register_ok_inv in H as (_ & _ & Hfresh & ->). simpl.
    rewrite lookup_insert_ne; [done|]. intros ->. congruence.
Qed.

Lemma register_notFound (p : string) (h : HandlerFunc) (isRegexp : bool) (mux : Mux) :
  notFound (fst (register p h isRegexp mux)) = notFound mux.
Proof.
  destruct (register p h isRegexp mux) as [mux' [msg|[]]] eqn:H; simpl.
  - by apply register_panic_inv in H as ->.
  - by apply register_ok_inv in H as (_ & _ & _ & ->).
Qed.

Lemma Mount_cons (prefix pattern : string) (e : muxEntry)
    (rest : list (string * muxEntry)) (mux : Mux) :
  Mount prefix ((pattern, e) :: rest) mux =
  match register (prefix +:+ pattern) (handler e) false mux with
  | (mux', inl msg) => (mux', panic msg)
  | (mux', inr _) => Mount prefix rest mux'
  end.
Proof. reflexivity. Qed.

Lemma Mount_keeps (prefix : string) (order : list (string * muxEntry)) (mux : Mux) :
  notFound (fst (Mount prefix order mux)) = notFound mux
  /\ forall q e, m mux !! q = Some e ->
                 m (fst (Mount prefix order mux)) !! q = Some e.
Proof.
  revert mux; induction order as [|[pattern e0] order IH]; intros mux; [done|].
  rewrite Mount_cons.
  pose proof (register_preserves_entries (prefix +:+ pattern) (handler e0) false mux)
    as Hkeep.
  pose proof (register_notFound (prefix +:+ pattern) (handler e0) false mux) as Hnf.
  destruct (register _ _ _ mux) as [mux1 [msg|[]]]; simpl in *; [done|].
  destruct (IH mux1) as [IHnf IHkeep]. split; [congruence|].
  intros q e Hq. apply IHkeep. by apply Hkeep.
Qed.

(** X3: [Mount] never removes or changes an entry of the destination and
    never touches its not-found handler, whether it returns or panics. *)
Theorem Mount_preserves_entries (prefix : string) (order : list (string * muxEntry))
    (mux : Mux) :
  notFound (fst (Mount prefix order mux)) = notFound mux
  /\ forall q e, m mux !! q = Some e ->
                 m (fst (Mount prefix order mux)) !! q = Some e.
Proof. apply Mount_keeps. Qed.

(** ** The invariant of routers built through the API *)

Lemma New_wellFormed (nf : HandlerFunc) (mux : Mux) :
  New nf = ok mux -> wellFormed mux.
Proof.
  destruct nf as [|id]; [discriminate|]. intros [= <-]. split; [done|].
  intros p e H. simpl in H. by rewrite lookup_empty in H.
Qed.

Lemma register_wellFormed (p : string) (h : HandlerFunc) (isRegexp : bool) (mux : Mux) :
  wellFormed mux -> wellFormed (fst (register p h isRegexp mux)).
Proof.
  intros [Hnf Hall].
  destruct (register p h isRegexp mux) as [mux' [msg|[]]] eqn:H; simpl.
  - by apply register_panic_inv in H as ->.
  - apply register_ok_inv in H as (Hv & Hh & _ & ->). split; [done|].
    simpl. intros q e. destruct (decide (p = q)) as [<-|Hq].
    + rewrite lookup_insert_eq. by intros [= <-].
    + rewrite lookup_insert_ne by done. apply Hall.
Qed.

Lemma Mount_wellFormed (prefix : string) (order : list (string * muxEntry)) (mux : Mux) :
  wellFormed mux -> wellFormed (fst (Mount prefix order mux)).
Proof.
  revert mux; induction order as [|[pattern e0] order IH]; intros mux Hwf; [done|].
  rewrite Mount_cons.
  pose proof (register_wellFormed (prefix +:+ pattern) (handler e0) false mux Hwf)
    as Hstep.
  destruct (register _ _ _ mux) as [mux1 [msg|[]]]; simpl in *; [done|].
  by apply IH.
Qed.

(** X2: Every router a program can build with [New], [HandleFunc],
    [RegexpHandleFunc] and [Mount] has a non-nil not-found handler, and
    each of its entries has a non-nil handler and a pattern that is
    non-empty and, for a literal entry, is ["/"] or begins with a slash and
    does not end with one; a panicking call does not break this. *)
Theorem reachable_wellFormed (mux : Mux) : reachable mux -> wellFormed mux.
Proof.
  induction 1 as [nf mux HNew | p h b mux _ IH | prefix sub order mux _ _ _ _ IH].
  - by apply (New_wellFormed nf).
  - by apply register_wellFormed.
  - by apply Mount_wellFormed.
Qed.

Lemma reachable_wellFormed_witness :
  wellFormed (Examples.router [("/a", Examples.literal 1)]).
Proof.
  apply reachable_wellFormed.
  change (Examples.router [("/a", Examples.literal 1)])
    with (fst (register "/a" (Func 1) false (Examples.router []))).
  apply reachable_register. apply (reachable_New (Func 0)). reflexivity.
Defined.

(** ** Mounting *)

Lemma append_inj (prefix a b : string) : prefix +:+ a = prefix +:+ b -> a = b.
Proof.
  induction prefix as [|c prefix IH]; [done|].
  rewrite !append_cons. intros [= H]. by apply IH.
Qed.

Lemma iterates_NoDup (t : gmap string muxEntry) (order : list (string * muxEntry)) :
  iterates t order -> NoDup (order.*1).
Proof. unfold iterates. intros ->. apply NoDup_fst_map_to_list. Qed.

Lemma register_succeeds (p : string) (h : HandlerFunc) (isRegexp : bool) (mux : Mux) :
  validPattern p isRegexp -> h <> NilFunc -> m mux !! p = None ->
  register p h isRegexp mux = (set_m mux (<[p := MuxEntry h isRegexp]> (m mux)), ok tt).
Proof.
  intros Hv Hh Hfresh. destruct h as [|id]; [done|].
  rewrite (register_fresh _ _ _ _ Hfresh). apply checkPattern_ok in Hv. by rewrite Hv.
Qed.

Lemma Mount_ok_iff_list (prefix : string) (order : list (string * muxEntry)) (mux : Mux) :
  NoDup (order.*1) ->
  snd (Mount prefix order mux) = ok tt <->
  forall p e, (p, e) ∈ order ->
    validPattern (prefix +:+ p) false /\ handler e <> NilFunc
    /\ m mux !! (prefix +:+ p) = None.
Proof.
  revert mux; induction order as [|[p0 e0] order IH]; intros mux Hnd.
  { split; [|done]. intros _ p e Hin. by apply elem_of_nil in Hin. }
  rewrite fmap_cons in Hnd. apply NoDup_cons in Hnd as [Hp0 Hnd]. simpl in Hp0.
  rewrite Mount_cons.
  destruct (register (prefix +:+ p0) (handler e0) false mux) as [mux1 [msg|[]]] eqn:Hreg.
  - simpl. split; [discriminate|]. intros Hall.
    destruct (Hall p0 e0 (list_elem_of_here _ _)) as (Hv & Hh & Hfresh).
    rewrite (register_succeeds _ _ _ _ Hv Hh Hfresh) in Hreg. discriminate Hreg.
  - apply register_ok_inv in Hreg as (Hv & Hh & Hfresh & ->).
    rewrite (IH _ Hnd). simpl.
    assert (forall p e, (p, e) ∈ order ->
              <[prefix +:+ p0 := MuxEntry (handler e0) false]> (m mux) !! (prefix +:+ p)
              = m mux !! (prefix +:+ p)) as Hother.
    { intros p e Hin. apply lookup_insert_ne. intros Heq. apply append_inj in Heq as ->.
      apply Hp0. by apply (list_elem_of_fmap_2 fst _ (p, e)). }
    split.
    + intros Hall p e Hin. apply elem_of_cons in Hin as [[= -> ->]|Hin]; [done|].
      destruct (Hall p e Hin) as (? & ? & Hl). by rewrite (Hother p e Hin) in Hl.
    + intros Hall p e Hin.
      destruct (Hall p e (list_elem_of_further _ _ _ Hin)) as (? & ? & Hl).
      by rewrite (Hother p e Hin).
Qed.

(** X4: [Mount] returns exactly when every entry of the source, once
    prefixed, passes the literal pattern checks, has a non-nil handler and
    is not yet in the destination; otherwise it panics. *)
Theorem Mount_succeeds_iff (prefix : string) (sub : Mux)
    (order : list (string * muxEntry)) (mux : Mux) :
  iterates (m sub) order ->
  snd (Mount prefix order mux) = ok tt <->
  forall p e, m sub !! p = Some e ->
    validPattern (prefix +:+ p) false /\ handler e <> NilFunc
    /\ m mux !! (prefix +:+ p) = None.
Proof.
  intros Hit. rewrite (Mount_ok_iff_list _ _ _ (iterates_NoDup _ _ Hit)).
  split; intros H p e Hin; apply H; by apply (iterates_elem_of _ _ _ _ Hit).
Qed.

Lemma Mount_ok_lookup (prefix : string) (order : list (string * muxEntry))
    (mux mux' : Mux) :
  Mount prefix order mux = (mux', ok tt) ->
  (forall p e, (p, e) ∈ order ->
     m mux' !! (prefix +:+ p) = Some (MuxEntry (handler e) false))
  /\ (forall q, (forall p e, (p, e) ∈ order -> q <> prefix +:+ p) ->
        m mux' !! q = m mux !! q)
  /\ size (m mux') = (size (m mux) + length order)%nat.
Proof.
  revert mux; induction order as [|[p0 e0] order IH]; intros mux.
  { intros [= <-]. split; [intros p e Hin; by apply elem_of_nil in Hin|].
    split; [done|]. simpl. lia. }
  rewrite Mount_cons.
  destruct (register (prefix +:+ p0) (handler e0) false mux) as [mux1 [msg|[]]] eqn:Hreg;
    [discriminate|].
  intros Hrest. destruct (IH _ Hrest) as (Hin' & Hout' & Hsize').
  apply register_ok_inv in Hreg as (_ & _ & Hfresh & ->). simpl in *.
  split; [|split].
  - intros p e Hin. apply elem_of_cons in Hin as [[= -> ->]|Hin]; [|by apply Hin'].
    pose proof (proj2 (Mount_keeps prefix order
                         (set_m mux (<[prefix +:+ p0 := MuxEntry (handler e0) false]> (m mux))))
                  (prefix +:+ p0) (MuxEntry (handler e0) false)) as Hkeep.
    rewrite Hrest in Hkeep. apply Hkeep. simpl. apply lookup_insert_eq.
  - intros q Hq. rewrite Hout'.
    + apply lookup_insert_ne. intros Heq. by apply (Hq p0 e0 (list_elem_of_here _ _)).
    + intros p e Hin. apply (Hq p e). by apply list_elem_of_further.
  - rewrite Hsize', map_size_insert_None by done. lia.
Qed.

(** X5: After a [Mount] that returned, every entry of the source is in the
    destination under prefix + pattern, with the source's handler and as a
    literal entry; every pattern that is not such a prefixed pattern maps
    to what it did before; the table grew by the number of source entries. *)
Theorem Mount_lookup (prefix : string) (sub : Mux) (order : list (string * muxEntry))
    (mux mux' : Mux) :
  iterates (m sub) order ->
  Mount prefix order mux = (mux', ok tt) ->
  (forall p e, m sub !! p = Some e ->
     m mux' !! (prefix +:+ p) = Some (MuxEntry (handler e) false))
  /\ (forall q, (forall p, is_Some (m sub !! p) -> q <> prefix +:+ p) ->
        m mux' !! q = m mux !! q)
  /\ size (m mux') = (size (m mux) + size (m sub))%nat.
Proof.
  intros Hit HM. destruct (Mount_ok_lookup _ _ _ _ HM) as (Hin & Hout & Hsize).
  split; [|split].
  - intros p e Hp. apply Hin. by apply (iterates_elem_of _ _ _ _ Hit).
  - intros q Hq. apply Hout. intros p e Hp. apply Hq. exists e.
    by apply (iterates_elem_of _ _ _ _ Hit).
  - rewrite Hsize. f_equal. unfold iterates in Hit. rewrite Hit.
    apply length_map_to_list.
Qed.

(** X6: A [Mount] that panics is not undone: the destination is left as the
    mounting of the entries visited before the failing one made it, and the
    panic is that of the failing entry's registration. *)
Theorem Mount_failure_partial (prefix : string) (order : list (string * muxEntry))
    (mux : Mux) (msg : PanicMsg) :
  snd (Mount prefix order mux) = panic msg ->
  exists pre p e post,
    order = pre ++ (p, e) :: post
    /\ Mount prefix pre mux = (fst (Mount prefix order mux), ok tt)
    /\ register (prefix +:+ p) (handler e) false (fst (Mount prefix order mux))
       = (fst (Mount prefix order mux), panic msg).
Proof.
  revert mux; induction order as [|[p0 e0] order IH]; intros mux; [discriminate|].
  rewrite Mount_cons.
  destruct (register (prefix +:+ p0) (handler e0) false mux) as [mux1 [msg'|[]]] eqn:Hreg.
  - simpl. intros [= ->]. exists [], p0, e0, order.
    pose proof (register_panic_inv _ _ _ _ _ _ Hreg) as ->. done.
  - intros H. destruct (IH mux1 H) as (pre & p & e & post & -> & Hpre & Hfail).
    exists ((p0, e0) :: pre), p, e, post. split; [done|]. split; [|done].
    rewrite Mount_cons, Hreg. exact Hpre.
Qed.

Lemma last_byte_append_slash (a : string) : last_byte (a +:+ "/") = Some slash.
Proof.
  unfold last_byte.
  by rewrite (proj2 (splitLast_Some (a +:+ "/") a slash) eq_refl).
Qed.

Lemma first_byte_append (a b : string) : a <> "" -> first_byte (a +:+ b) = first_byte a.
Proof. by destruct a. Qed.

Lemma append_slash_not_root (a : string) : a <> "" -> a +:+ "/" <> "/".
Proof.
  intros Ha Heq.
  pose proof (proj2 (splitLast_Some (a +:+ "/") a slash) eq_refl) as H.
  rewrite Heq in H. simpl in H. by injection H as <-.
Qed.

Lemma checkPattern_prefixed_root (prefix : string) :
  prefix <> "" ->
  checkPattern (prefix +:+ "/") false =
  panic (if bool_decide (first_byte prefix = Some slash)
         then PMustNotEndWithSlash else PMustBeginWithSlash).
Proof.
  intros Hne. case_bool_decide as Hf.
  - apply checkPattern_trailing_slash.
    + by apply append_slash_not_root.
    + by rewrite first_byte_append.
    + apply last_byte_append_slash.
  - apply checkPattern_no_leading_slash.
    + by destruct prefix.
    + by apply append_slash_not_root.
    + by rewrite first_byte_append.
Qed.

(** X7: A source router that registers the root pattern ["/"] cannot be
    mounted under a non-empty prefix: the prefixed pattern ends with a
    slash (or, for a prefix without leading slash, does not begin with
    one), so [Mount] panics, at that entry or at one visited before it. *)
Theorem Mount_root_pattern_fails (prefix : string) (e : muxEntry)
    (order : list (string * muxEntry)) (mux : Mux) :
  prefix <> "" ->
  ("/", e) ∈ order ->
  (exists msg, snd (Mount prefix order mux) = panic msg)
  /\ register (prefix +:+ "/") (handler e) false mux
     = (mux, panic (if bool_decide (first_byte prefix = Some slash)
                    then PMustNotEndWithSlash else PMustBeginWithSlash)).
Proof.
  intros Hne Hin.
  assert (forall mux', register (prefix +:+ "/") (handler e) false mux'
            = (mux', panic (if bool_decide (first_byte prefix = Some slash)
                            then PMustNotEndWithSlash else PMustBeginWithSlash)))
    as Hroot.
  { intros mux'. unfold register. by rewrite (checkPattern_prefixed_root _ Hne). }
  split; [|apply Hroot].
  revert mux; induction order as [|[p0 e0] order IH]; intros mux.
  { by apply elem_of_nil in Hin. }
  rewrite Mount_cons.
  destruct (register (prefix +:+ p0) (handler e0) false mux) as [mux1 [msg|[]]] eqn:Hreg.
  - by exists msg.
  - apply elem_of_cons in Hin as [[= <- <-]|Hin].
    + rewrite Hroot in Hreg. discriminate Hreg.
    + by apply IH.
Qed.

Lemma Mount_root_pattern_fails_witness :
  Mount "/users" [("/", Examples.literal 1)] (Examples.router [])
  = (Examples.router [], panic PMustNotEndWithSlash).
Proof.
  assert ("/users" <> "") as Hne by discriminate.
  destruct (Mount_root_pattern_fails "/users" (Examples.literal 1)
              [("/", Examples.literal 1)] (Examples.router []) Hne
              (list_elem_of_here _ _)) as [_ H].
  rewrite Mount_cons. change ("/users" +:+ "/") with "/users/" in *.
  change (handler (Examples.literal 1)) with (Func 1) in *.
  rewrite H. reflexivity.
Defined.

Lemma Mount_succeeds_iff_witness :
  snd (Mount "/users" [("/report", Examples.literal 1)] (Examples.router [])) = ok tt.
Proof.
  apply (Mount_succeeds_iff "/users" (Examples.router [("/report", Examples.literal 1)])
           [("/report", Examples.literal 1)] (Examples.router [])
           (router_singleton_iterates _ _)).
  intros p e H. apply router_singleton_lookup in H as [-> ->].
  split; [|split]; [|discriminate|reflexivity].
  split; [discriminate|]. intros _. right. split; [reflexivity|discriminate].
Defined.

Lemma Mount_lookup_witness :
  m (fst (Mount "/users" [("/report", Examples.literal 1)] (Examples.router [])))
    !! "/users/report"
  = Some (Examples.literal 1).
Proof.
  destruct (Mount "/users" [("/report", Examples.literal 1)] (Examples.router []))
    as [mux' res] eqn:HM.
  assert (res = ok tt) as ->.
  { change res with (snd (mux', res)). rewrite <- HM. reflexivity. }
  destruct (Mount_lookup "/users" (Examples.router [("/report", Examples.literal 1)])
              [("/report", Examples.literal 1)] (Examples.router []) mux'
              (router_singleton_iterates _ _) HM) as (Hin & _ & _).
  apply (Hin "/report" (Examples.literal 1)). reflexivity.
Defined.

(** Mounting ["/b"] and ["/a"] into a router that has ["/a"]: the panic
    comes at ["/a"], and ["/b"] stays registered. *)
Lemma Mount_failure_partial_witness :
  let order := [("/b", Examples.literal 2); ("/a", Examples.literal 3)] in
  let mux := Examples.router [("/a", Examples.literal 1)] in
  snd (Mount "" order mux) = panic (PMultipleRegistrations "/a")
  /\ m (fst (Mount "" order mux)) !! "/b" = Some (Examples.literal 2)
  /\ exists pre p e post,
       order = pre ++ (p, e) :: post
       /\ Mount "" pre mux = (fst (Mount "" order mux), ok tt).
Proof.
  intros order mux.
  assert (snd (Mount "" order mux) = panic (PMultipleRegistrations "/a")) as H
    by reflexivity.
  split; [exact H|]. split; [reflexivity|].
  destruct (Mount_failure_partial "" order mux _ H) as (pre & p & e & post & Ho & Hpre & _).
  by exists pre, p, e, post.
Defined.

(** * Further properties of dispatch *)

Section DispatchOutcomes.
Context `{RE : RegexpPkg} `{UC : UnicodePkg} `{UP : URLPkg}.

(** The results of [urlWithoutSlash], case by case. *)
Lemma urlWithoutSlash_cases (path pattern : string) (u : URL) :
  (forall msg, urlWithoutSlash path pattern u = panic msg <->
     (Compile pattern = None /\ msg = PRegexpCompile pattern)
     \/ (is_Some (Compile pattern) /\ path = "" /\ msg = PIndexOutOfRange))
  /\ (forall u', urlWithoutSlash path pattern u = ok (u', true) ->
        path = Path u' +:+ "/" /\ RawQuery u' = RawQuery u
        /\ equalsOrMatches pattern (Path u'))
  /\ (forall u', urlWithoutSlash path pattern u = ok (u', false) -> u' = u).
Proof.
  unfold urlWithoutSlash, MustCompile.
  destruct (Compile pattern) as [re|] eqn:Hc.
  - unfold ok at 1. cbv iota beta.
    destruct (splitLast path) as [[init l]|] eqn:Hs.
    + assert (path <> "") as Hne by (intros ->; discriminate Hs).
      destruct (Ascii.eqb_spec l slash) as [->|Hl]; simpl.
      * destruct (String.eqb_spec init pattern) as [->|Hp]; simpl.
        { split; [|split].
          - intros msg. split; [discriminate|].
            intros [[? _]|(_ & ? & _)]; congruence.
          - intros u' [= <-]. simpl. split; [by apply splitLast_Some|].
            split; [done|by left].
          - intros u'. discriminate. }
        destruct (MatchString re init) eqn:Hm.
        { split; [|split].
          - intros msg. split; [discriminate|].
            intros [[? _]|(_ & ? & _)]; congruence.
          - intros u' [= <-]. simpl. split; [by apply splitLast_Some|].
            split; [done|]. right. by exists re.
          - intros u'. discriminate. }
        split; [|split].
        { intros msg. split; [discriminate|].
          intros [[? _]|(_ & ? & _)]; congruence. }
        { intros u'. discriminate. }
        { by intros u' [= <-]. }
      * split; [|split].
        { intros msg. split; [discriminate|].
          intros [[? _]|(_ & ? & _)]; congruence. }
        { intros u'. discriminate. }
        { by intros u' [= <-]. }
    + apply splitLast_None in Hs as ->. split; [|split].
      * intros msg. split.
        { intros [= <-]. right. split; [by exists re|done]. }
        { intros [[? _]|(_ & _ & ->)]; [congruence|done]. }
      * intros u'. discriminate.
      * intros u'. discriminate.
  - split; [|split].
    + intros msg. split.
      * intros [= <-]. by left.
      * intros [[_ ->]|([re Hre] & _)]; [done|congruence].
    + intros u'. discriminate.
    + intros u'. discriminate.
Qed.

(** X8: [urlWithoutSlash] panics only on a pattern that does not compile or,
    for one that does, on the empty path.  When it answers [true] the URL
    it returns has the path without its last slash (so that path plus
    ["/"] is the path given), the query of the URL given, and that path
    equals the pattern or matches it; when it answers [false] it returns
    the URL given. *)
Theorem urlWithoutSlash_result (path pattern : string) (u : URL) :
  (forall msg, urlWithoutSlash path pattern u = panic msg <->
     (Compile pattern = None /\ msg = PRegexpCompile pattern)
     \/ (is_Some (Compile pattern) /\ path = "" /\ msg = PIndexOutOfRange))
  /\ (forall u', urlWithoutSlash path pattern u = ok (u', true) ->
        path = Path u' +:+ "/" /\ RawQuery u' = RawQuery u
        /\ equalsOrMatches pattern (Path u'))
  /\ (forall u', urlWithoutSlash path pattern u = ok (u', false) -> u' = u).
Proof. apply urlWithoutSlash_cases. Qed.

(** X9: [isLower] answers [false] exactly when some rune of the string is a
    letter that is not lower case: a letter without case counts like an
    upper-case one, and a string without letters is lower case. *)
Theorem isLower_false_iff (s : string) :
  isLower s = false <->
  exists c, c ∈ runes s /\ IsLetter c = true /\ IsLower c = false.
Proof.
  unfold isLower. induction (runes s) as [|c rs IH]; simpl.
  - split; [discriminate|]. intros (c & Hin & _). by apply elem_of_nil in Hin.
  - destruct (IsLetter c) eqn:Hl; destruct (IsLower c) eqn:Hw; simpl.
    + rewrite IH. split.
      * intros (c' & Hin & H). exists c'. split; [by apply list_elem_of_further|done].
      * intros (c' & Hin & Hl' & Hw'). apply elem_of_cons in Hin as [->|Hin];
          [congruence|]. by exists c'.
    + split; [|done]. intros _. exists c. split; [apply list_elem_of_here|done].
    + rewrite IH. split.
      * intros (c' & Hin & H). exists c'. split; [by apply list_elem_of_further|done].
      * intros (c' & Hin & Hl' & Hw'). apply elem_of_cons in Hin as [->|Hin];
          [congruence|]. by exists c'.
    + rewrite IH. split.
      * intros (c' & Hin & H). exists c'. split; [by apply list_elem_of_further|done].
      * intros (c' & Hin & Hl' & Hw'). apply elem_of_cons in Hin as [->|Hin];
          [congruence|]. by exists c'.
Qed.

(** What [bindSubmatches] returns is the request given with bindings in
    front of its context. *)
Lemma bindSubmatches_extends (names : list string) (i : nat)
    (submatches : list string) (r r' : Request) :
  bindSubmatches i names submatches r = ok r' -> extendsContext r r'.
Proof.
  revert i r; induction names as [|name rest IH]; intros i r; simpl.
  { intros [= <-]. exists []. by rewrite WithContext_id. }
  destruct (Nat.eqb i 0 || String.eqb name ""); [apply IH|].
  destruct (submatches !! i) as [v|]; [|discriminate].
  intros H. apply IH in H as [bound ->]. exists (bound ++ [(name, v)]).
  rewrite WithContext_WithValue. simpl. by rewrite <- app_assoc.
Qed.

Lemma bindSubmatches_panic (names : list string) (i : nat)
    (submatches : list string) (r : Request) (msg : PanicMsg) :
  bindSubmatches i names submatches r = panic msg -> msg = PIndexOutOfRange.
Proof.
  revert i r; induction names as [|name rest IH]; intros i r; simpl; [discriminate|].
  destruct (Nat.eqb i 0 || String.eqb name ""); [apply IH|].
  destruct (submatches !! i) as [v|]; [apply IH|]. by intros [= <-].
Qed.

Lemma bindSubmatches_unnamed (names : list string) (i : nat)
    (submatches : list string) (r : Request) :
  (forall j name, names !! j = Some name -> (i + j)%nat <> 0%nat -> name = "") ->
  bindSubmatches i names submatches r = ok r.
Proof.
  revert i; induction names as [|name rest IH]; intros i Hall; simpl; [done|].
  assert (Nat.eqb i 0 || String.eqb name "" = true) as ->.
  { destruct i as [|i]; [done|]. simpl.
    rewrite (Hall 0%nat name eq_refl) by lia. done. }
  apply IH. intros j name' Hj Hne. apply (Hall (S j) name' Hj). lia.
Qed.

(** X10: A pattern without named groups leaves the request as it came,
    whatever [FindStringSubmatch] returns; with a named group and no
    submatch to index, the call panics with the index out of range. *)
Theorem addRegexpSubmatchesToContext_edges (next : HandlerFunc) (re : Regexp)
    (r : Request) :
  ((forall j name, SubexpNames re !! j = Some name -> j <> 0%nat -> name = "") ->
   addRegexpSubmatchesToContext next re r = invoke next r)
  /\ (forall j name,
        SubexpNames re !! j = Some name -> j <> 0%nat -> name <> "" ->
        FindStringSubmatch re (Path (url r)) = [] ->
        addRegexpSubmatchesToContext next re r = Panic PIndexOutOfRange).
Proof.
  unfold addRegexpSubmatchesToContext. split.
  - intros Hall. rewrite bindSubmatches_unnamed; [done|].
    intros j name Hj Hne. by apply (Hall j name).
  - intros j name Hj Hj0 Hname ->.
    destruct (bindSubmatches 0 (SubexpNames re) [] r) as [msg|r'] eqn:Hb.
    { by rewrite (bindSubmatches_panic _ _ _ _ _ Hb). }
    exfalso. clear next. revert Hb.
    assert (forall names i r0,
              (exists j name, names !! j = Some name /\ (i + j)%nat <> 0%nat /\ name <> "") ->
              bindSubmatches i names [] r0 <> ok r') as Hgen.
    { induction names as [|n0 rest IH]; intros i r0 (j0 & nm & Hl & Hi & Hn); simpl.
      { by rewrite lookup_nil in Hl. }
      destruct j0 as [|j0].
      - injection Hl as ->. destruct i as [|i]; [lia|]. simpl.
        rewrite (string_eqb_false _ _ Hn). by rewrite ?lookup_nil.
      - assert (exists j name, rest !! j = Some name /\ (S i + j)%nat <> 0%nat /\ name <> "")
          as Hrest by (exists j0, nm; split; [done|split; [lia|done]]).
        destruct (Nat.eqb i 0 || String.eqb n0 ""); [by apply IH|].
        by rewrite ?lookup_nil. }
    apply Hgen. exists j, name. split; [done|]. split; [lia|done].
Qed.

End DispatchOutcomes.

Section DispatchSoundness.
Context `{RE : RegexpPkg} `{UC : UnicodePkg} `{UP : URLPkg}.

(** The four ways an iteration of the loop ends the dispatch. *)
Lemma serveEntry_inv (r : Request) (p : string) (e : muxEntry) (o : Outcome) :
  serveEntry r (p, e) = Some o ->
  (exists msg, o = Panic msg
     /\ ((Compile p = None /\ msg = PRegexpCompile p)
         \/ (is_Some (Compile p) /\ Path (url r) = "" /\ msg = PIndexOutOfRange)))
  \/ (exists stripped,
        o = Redirect TrailingSlash
              (URL_String {| Path := stripped; RawQuery := RawQuery (url r) |})
              StatusPermanentRedirect
        /\ endsWithSlash (Path (url r)) stripped /\ equalsOrMatches p stripped)
  \/ (o = Redirect LowerCase (ToLower (URL_String (url r))) StatusPermanentRedirect
      /\ Method r <> MethodConnect /\ isLower (Path (url r)) = false)
  \/ (exists re, Compile p = Some re /\ entryMatches r p e /\ o = matchOutcome r e re).
Proof.
  unfold serveEntry.
  destruct (urlWithoutSlash (Path (url r)) p (url r)) as [msg|[u b]] eqn:Hu.
  - intros [= <-]. left. exists msg. split; [done|].
    by apply (proj1 (urlWithoutSlash_cases (Path (url r)) p (url r))).
  - assert (is_Some (Compile p)) as [re Hc].
    { destruct (Compile p) as [re|] eqn:Hc; [by exists re|].
      by rewrite (urlWithoutSlash_uncompilable _ _ _ Hc) in Hu. }
    destruct b.
    + intros [= <-]. right. left.
      destruct (proj1 (proj2 (urlWithoutSlash_cases (Path (url r)) p (url r))) u Hu)
        as (Hpath & Hq & Hm).
      exists (Path u). split; [|split; [by apply splitLast_Some|done]].
      destruct u as [pa q]. simpl in *. by rewrite Hq.
    + destruct (negb (String.eqb (Method r) MethodConnect)
                && negb (isLower (Path (url r)))) eqn:Hcase.
      * intros [= <-]. right. right. left. split; [done|].
        apply andb_true_iff in Hcase as [Hm Hl].
        apply negb_true_iff in Hm, Hl. split; [|done]. by apply String.eqb_neq.
      * rewrite (MustCompile_Some _ _ Hc). unfold matchOutcome, entryMatches.
        change (match ok re with
                | inl p0 => Some (Panic p0)
                | inr re0 =>
                    if MatchString re0 (Path (url r))
                    then Some (addRegexpSubmatchesToContext (handler e) re0 r)
                    else None
                end)
          with (if MatchString re (Path (url r))
                then Some (addRegexpSubmatchesToContext (handler e) re r)
                else None).
        destruct (regexp e).
        { destruct (MatchString re (Path (url r))) eqn:Hm; [|discriminate].
          intros [= <-]. right. right. right. exists re. split; [done|].
          split; [by exists re|done]. }
        destruct (String.eqb_spec (Path (url r)) p) as [Heq|Hne]; [|discriminate].
        intros [= <-]. right. right. right. by exists re.
Qed.

Lemma serveEntries_inv (r : Request) (order : list (string * muxEntry)) (o : Outcome) :
  serveEntries r order = Some o ->
  exists p e, (p, e) ∈ order /\ serveEntry r (p, e) = Some o.
Proof.
  induction order as [|[p e] order IH]; [discriminate|].
  rewrite serveEntries_cons. destruct (serveEntry r (p, e)) as [o'|] eqn:Hpe.
  - intros [= <-]. exists p, e. split; [apply list_elem_of_here|done].
  - intros H. destruct (IH H) as (p' & e' & Hin & Hs).
    exists p', e'. split; [by apply list_elem_of_further|done].
Qed.

Lemma invoke_inv (h : HandlerFunc) (r : Request) (o : Outcome) :
  invoke h r = o ->
  (h = NilFunc /\ o = Panic PNilFuncCall) \/ (exists id, h = Func id /\ o = Invoke id r).
Proof. destruct h as [|id]; intros <-; [by left|right; by exists id]. Qed.

Lemma matchOutcome_inv (r : Request) (e : muxEntry) (re : Regexp) :
  matchOutcome r e re = Panic PNilFuncCall /\ handler e = NilFunc
  \/ matchOutcome r e re = Panic PIndexOutOfRange /\ regexp e = true
  \/ exists id r', matchOutcome r e re = Invoke id r' /\ handler e = Func id
                   /\ extendsContext r r'.
Proof.
  unfold matchOutcome, addRegexpSubmatchesToContext. destruct (regexp e).
  - destruct (bindSubmatches _ _ _ _) as [msg|r'] eqn:Hb.
    + right. left. by rewrite (bindSubmatches_panic _ _ _ _ _ Hb).
    + apply bindSubmatches_extends in Hb.
      destruct (handler e) as [|id]; [by left|].
      right. right. by exists id, r'.
  - destruct (handler e) as [|id]; [by left|]. right. right.
    exists id, r. split; [done|]. split; [done|]. exists []. by rewrite WithContext_id.
Qed.

(** X11: The bad-request answer is given for the wildcard target and for
    nothing else, whatever the table holds; it asks to close the connection
    exactly for HTTP/1.1 and later. *)
Theorem ServeHTTP_bad_request_iff (mux : Mux) (order : list (string * muxEntry))
    (r : Request) (close : bool) :
  (ServeHTTP mux order r = BadRequest close <->
   RequestURI r = "*" /\ close = ProtoAtLeast r 1 1)
  /\ (ProtoAtLeast r 1 1 = true <->
      1 < ProtoMajor r \/ (ProtoMajor r = 1 /\ 1 <= ProtoMinor r)).
Proof.
  split.
  - unfold ServeHTTP. destruct (String.eqb_spec (RequestURI r) "*") as [Hw|Hw].
    + split; [intros [= ->]; done|]. by intros [_ ->].
    + split; [|by intros [? _]]. intros H. exfalso.
      destruct (serveEntries r order) as [o|] eqn:Hs.
      * subst o. apply serveEntries_inv in Hs as (p & e & _ & Hs).
        apply serveEntry_inv in Hs
          as [(msg & ? & _)|[(s & ? & _)|[(? & _)|(re & _ & _ & Ho)]]];
          try discriminate.
        destruct (matchOutcome_inv r e re) as [[Hn _]|[[Hn _]|(id & r' & Hn & _)]];
          congruence.
      * apply invoke_inv in H as [[_ ?]|(id & _ & ?)]; discriminate.
  - unfold ProtoAtLeast. lia.
Qed.

(** X12: The trailing-slash redirect is only issued for a path that ends with
    a slash and whose slash-stripped form equals or matches the pattern of
    some entry of the table; its status is 308 and its target is the
    stripped path with the query of the request. *)
Theorem slash_redirect_only_if (mux : Mux) (order : list (string * muxEntry))
    (r : Request) (target : string) (code : Z) :
  ServeHTTP mux order r = Redirect TrailingSlash target code ->
  code = StatusPermanentRedirect
  /\ exists stripped p e,
       (p, e) ∈ order
       /\ endsWithSlash (Path (url r)) stripped
       /\ equalsOrMatches p stripped
       /\ target = URL_String {| Path := stripped; RawQuery := RawQuery (url r) |}.
Proof.
  unfold ServeHTTP. destruct (String.eqb (RequestURI r) "*"); [discriminate|].
  destruct (serveEntries r order) as [o|] eqn:Hs.
  - intros ->. apply serveEntries_inv in Hs as (p & e & Hin & Hs).
    apply serveEntry_inv in Hs
      as [(msg & ? & _)|[(s & Ho & Hend & Hm)|[(? & _)|(re & _ & _ & Ho)]]];
      try discriminate.
    + injection Ho as -> ->. split; [done|]. by exists s, p, e.
    + destruct (matchOutcome_inv r e re) as [[Hn _]|[[Hn _]|(id & r' & Hn & _)]];
        congruence.
  - intros H. apply invoke_inv in H as [[_ ?]|(id & _ & ?)]; discriminate.
Qed.

(** X13: A CONNECT request is never answered by the lower-casing redirect,
    whatever its path and the table. *)
Theorem connect_not_case_redirected (mux : Mux) (order : list (string * muxEntry))
    (r : Request) (target : string) (code : Z) :
  Method r = MethodConnect ->
  ServeHTTP mux order r <> Redirect LowerCase target code.
Proof.
  intros Hm H. unfold ServeHTTP in H.
  destruct (String.eqb (RequestURI r) "*"); [discriminate|].
  destruct (serveEntries r order) as [o|] eqn:Hs.
  - subst o. apply serveEntries_inv in Hs as (p & e & _ & Hs).
    apply (serveEntry_no_case_redirect r (p, e) target code); [by left|done].
  - by apply invoke_not_redirect in H.
Qed.

(** X14: A handler is only ever called for a reason: the handler called is
    the not-found handler, with the request as it came, or the handler of an
    entry of the table whose match test accepts the path, with the request
    as it came but for bindings put in front of its context. *)
Theorem ServeHTTP_invokes_registered (mux : Mux) (order : list (string * muxEntry))
    (r r' : Request) (id : nat) :
  ServeHTTP mux order r = Invoke id r' ->
  (notFound mux = Func id /\ r' = r
   /\ forall p e, (p, e) ∈ order -> ~ entryMatches r p e)
  \/ (exists p e, (p, e) ∈ order /\ handler e = Func id
                  /\ entryMatches r p e /\ extendsContext r r').
Proof.
  unfold ServeHTTP. destruct (String.eqb (RequestURI r) "*"); [discriminate|].
  destruct (serveEntries r order) as [o|] eqn:Hs.
  - intros ->. right. apply serveEntries_inv in Hs as (p & e & Hin & Hs).
    apply serveEntry_inv in Hs
      as [(msg & ? & _)|[(s & ? & _)|[(? & _)|(re & Hc & Hm & Ho)]]];
      try discriminate.
    destruct (matchOutcome_inv r e re) as [[Hn _]|[[Hn _]|(id' & r'' & Hn & Hh & Hext)]];
      try congruence.
    rewrite Hn in Ho. injection Ho as <- <-. by exists p, e.
  - intros H. left. apply invoke_inv in H as [[_ ?]|(id' & Hnf & [= -> ->])];
      [discriminate|]. split; [done|]. split; [done|].
    intros p e Hin Hm.
    assert (serveEntry r (p, e) = None) as Hnone.
    { clear -Hs Hin. induction order as [|pe order IH]; [by apply elem_of_nil in Hin|].
      rewrite serveEntries_cons in Hs.
      destruct (serveEntry r pe) eqn:Hpe; [discriminate|].
      apply elem_of_cons in Hin as [->|Hin]; [done|by apply IH]. }
    destruct (Compile p) as [re|] eqn:Hc.
    2:{ unfold serveEntry in Hnone.
        by rewrite (urlWithoutSlash_uncompilable _ _ _ Hc) in Hnone. }
    unfold serveEntry in Hnone.
    destruct (urlWithoutSlash (Path (url r)) p (url r)) as [msg|[u [|]]];
      [discriminate|discriminate|].
    destruct (negb _ && negb _); [discriminate|].
    rewrite (MustCompile_Some _ _ Hc) in Hnone. unfold entryMatches in Hm.
    destruct (regexp e).
    + destruct Hm as (re' & Hc' & Hm). rewrite Hc in Hc'. injection Hc' as <-.
      unfold ok in Hnone. cbv iota beta in Hnone. by rewrite Hm in Hnone.
    + rewrite Hm, String.eqb_refl in Hnone. discriminate.
Qed.

End DispatchSoundness.

Section DispatchTotality.
Context `{RE : RegexpPkg} `{UC : UnicodePkg} `{UP : URLPkg}.

Lemma serveEntry_matches (r : Request) (p : string) (e : muxEntry) (re : Regexp) :
  Compile p = Some re ->
  Path (url r) <> "" ->
  ~ slashTriggers r p ->
  caseCheckPasses r ->
  entryMatches r p e ->
  serveEntry r (p, e) = Some (matchOutcome r e re).
Proof.
  intros Hc Hne Hno Hcase Hm.
  rewrite (serveEntry_after_slash_check _ _ _ _ Hc Hne Hno).
  rewrite (caseCheckPasses_cond _ Hcase).
  unfold matchOutcome, entryMatches in *. destruct (regexp e).
  - destruct Hm as (re' & Hc' & Hm). rewrite Hc in Hc'. injection Hc' as <-.
    by rewrite Hm.
  - by rewrite Hm, String.eqb_refl.
Qed.

(** X15: On a router built through the API whose patterns all compile as
    regular expressions, and with a [regexp] package that returns one
    submatch per name, dispatching a request with a non-empty path never
    panics, in any iteration order: no compilation error, no index out of
    range and no call of a nil handler. *)
Theorem ServeHTTP_no_panic (mux : Mux) (order : list (string * muxEntry))
    (r : Request) (msg : PanicMsg) :
  submatchesAligned ->
  wellFormed mux ->
  iterates (m mux) order ->
  (forall p e, m mux !! p = Some e -> is_Some (Compile p)) ->
  Path (url r) <> "" ->
  ServeHTTP mux order r <> Panic msg.
Proof.
  intros Hal [Hnf Hwf] Hit Hcomp Hne. unfold ServeHTTP.
  destruct (String.eqb (RequestURI r) "*"); [discriminate|].
  destruct (serveEntries r order) as [o|] eqn:Hs.
  - intros ->. apply serveEntries_inv in Hs as (p & e & Hin & Hs).
    apply (iterates_elem_of _ _ _ _ Hit) in Hin.
    apply serveEntry_inv in Hs
      as [(msg' & _ & [[Hc _]|(_ & Hp & _)])|[(s & ? & _)|[(? & _)|(re & Hc & Hm & Ho)]]];
      try discriminate; try done.
    + destruct (Hcomp p e Hin) as [re Hre]. congruence.
    + destruct (Hwf p e Hin) as [Hh _]. revert Ho Hm.
      unfold matchOutcome, entryMatches, addRegexpSubmatchesToContext.
      destruct (regexp e).
      * intros Ho (re' & Hc' & Hm). rewrite Hc in Hc'. injection Hc' as <-.
        rewrite bindSubmatches_ok in Ho by (rewrite (Hal re _ Hm); simpl; lia).
        by destruct (handler e).
      * intros Ho _. by destruct (handler e).
  - by destruct (notFound mux).
Qed.



(** X18: A router made by [New] on which one literal pattern is registered
    with [HandleFunc] serves the request whose path is that pattern with the
    handler registered, when the pattern compiles as a regular expression
    (one that, for the root pattern, does not match the empty string) and
    the path passes the case check. *)
Theorem register_then_dispatch (nf : HandlerFunc) (id : nat) (p : string)
    (mux0 mux : Mux) (order : list (string * muxEntry)) (r : Request) (re : Regexp) :
  New nf = ok mux0 ->
  HandleFunc p (Func id) mux0 = (mux, ok tt) ->
  iterates (m mux) order ->
  Compile p = Some re ->
  (p = "/" -> MatchString re "" = false) ->
  RequestURI r <> "*" ->
  Path (url r) = p ->
  caseCheckPasses r ->
  ServeHTTP mux order r = Invoke id r.
Proof.
  intros HNew Hreg Hit Hc Hroot Huri Hpath Hcase.
  destruct nf as [|n]; [discriminate|]. injection HNew as <-.
  apply register_ok_inv in Hreg as ([Hne Hshape] & _ & _ & ->). simpl in Hit.
  assert (order = [(p, MuxEntry (Func id) false)]) as ->.
  { apply Permutation_singleton_r. unfold iterates in Hit. rewrite Hit.
    change (<[p := MuxEntry (Func id) false]> ∅)
      with ({[p := MuxEntry (Func id) false]} : gmap string muxEntry).
    by rewrite map_to_list_singleton. }
  assert (~ slashTriggers r p) as Hno.
  { intros (s & Hs & Hm). unfold endsWithSlash in Hs. rewrite Hpath in Hs.
    destruct (Hshape eq_refl) as [->|[_ Hlast]].
    - injection Hs as <-. destruct Hm as [Hm|(re' & Hc' & Hm)]; [discriminate|].
      rewrite Hc in Hc'. injection Hc' as <-. rewrite (Hroot eq_refl) in Hm.
      discriminate.
    - apply Hlast. unfold last_byte. by rewrite Hs. }
  apply (ServeHTTP_reaches _ [] [] (p, MuxEntry (Func id) false)); [done|done|].
  rewrite (serveEntry_matches r p _ re); [done|done|congruence|done|done|].
  unfold entryMatches. done.
Qed.

End DispatchTotality.

(** ** The further properties on the concrete packages *)


Lemma router_literal_wellFormed (k : string) (id : nat) :
  validPattern k false -> wellFormed (Examples.router [(k, Examples.literal id)]).
Proof.
  intros Hv. split; [discriminate|]. intros p e H.
  apply router_singleton_lookup in H as [-> ->]. split; [discriminate|done].
Qed.

Lemma slash_a_valid : validPattern "/a" false.
Proof. split; [discriminate|]. intros _. right. split; [reflexivity|discriminate]. Qed.

Lemma slash_redirect_only_if_witness :
  exists stripped p e,
    (p, e) ∈ [("/a", Examples.literal 1)]
    /\ endsWithSlash "/a/" stripped
    /\ equalsOrMatches p stripped
    /\ "/a?q=1" = URL_String {| Path := stripped; RawQuery := "q=1" |}.
Proof.
  assert (ServeHTTP (Examples.router [("/a", Examples.literal 1)])
            [("/a", Examples.literal 1)] (Examples.get "/a/" "q=1")
          = Redirect TrailingSlash "/a?q=1" 308) as H by (vm_compute; reflexivity).
  exact (proj2 (slash_redirect_only_if _ _ _ _ _ H)).
Defined.

Lemma connect_not_case_redirected_witness :
  let r := {| Method := "CONNECT"; RequestURI := "/A"; ProtoMajor := 1; ProtoMinor := 1;
              url := {| Path := "/A"; RawQuery := "" |}; context := [] |} in
  isLower (Path (url r)) = false
  /\ ServeHTTP (Examples.router [("/a", Examples.literal 1)])
       [("/a", Examples.literal 1)] r
     <> Redirect LowerCase "/a" StatusPermanentRedirect.
Proof.
  intros r. split; [reflexivity|].
  apply connect_not_case_redirected. reflexivity.
Defined.

Lemma ServeHTTP_invokes_registered_witness :
  let r := Examples.get "/42" "" in
  let order := [(Examples.id_pattern, Examples.regular 1)] in
  (notFound (Examples.router order) = Func 1 /\ WithContext r [("id", "42")] = r
   /\ forall p e, (p, e) ∈ order -> ~ entryMatches r p e)
  \/ (exists p e, (p, e) ∈ order /\ handler e = Func 1
                  /\ entryMatches r p e
                  /\ extendsContext r (WithContext r [("id", "42")])).
Proof.
  intros r order.
  assert (ServeHTTP (Examples.router order) order r
          = Invoke 1 (WithContext r [("id", "42")])) as H by (vm_compute; reflexivity).
  exact (ServeHTTP_invokes_registered _ _ _ _ _ H).
Defined.

Lemma ServeHTTP_no_panic_witness :
  wellFormed (Examples.router [("/a", Examples.literal 1)])
  /\ ServeHTTP (Examples.router [("/a", Examples.literal 1)])
       [("/a", Examples.literal 1)] (Examples.get "/A/b/" "")
     <> Panic PIndexOutOfRange.
Proof.
  assert (wellFormed (Examples.router [("/a", Examples.literal 1)])) as Hwf
    by apply router_literal_wellFormed, slash_a_valid.
  split; [exact Hwf|].
  apply ServeHTTP_no_panic.
  - intros re s. apply GoLib_submatch_length.
  - exact Hwf.
  - apply router_singleton_iterates.
  - intros p e H. apply router_singleton_lookup in H as [-> ->].
    vm_compute. eexists. reflexivity.
  - discriminate.
Defined.



Lemma register_then_dispatch_witness :
  ServeHTTP (Examples.router [("/hello", Examples.literal 1)])
    [("/hello", Examples.literal 1)] (Examples.get "/hello" "")
  = Invoke 1 (Examples.get "/hello" "").
Proof.
  destruct (Compile "/hello") as [re|] eqn:Hc; [|by vm_compute in Hc].
  apply (register_then_dispatch (Func 0) 1 "/hello" (Examples.router [])
           (Examples.router [("/hello", Examples.literal 1)])
           [("/hello", Examples.literal 1)] (Examples.get "/hello" "") re).
  - reflexivity.
  - reflexivity.
  - apply router_singleton_iterates.
  - exact Hc.
  - discriminate.
  - discriminate.
  - reflexivity.
  - right. reflexivity.
Defined.

(** Two literal entries, the path [/a/]: the redirect to [/a] in both
    iteration orders. *)
Lemma slash_redirect_any_order_witness :
  let table := [("/a", Examples.literal 1); ("/b", Examples.literal 2)] in
  let r := Examples.get "/a/" "" in
  ServeHTTP (Examples.router table) table r
  = Redirect TrailingSlash "/a" StatusPermanentRedirect
  /\ ServeHTTP (Examples.router table) (rev table) r
     = Redirect TrailingSlash "/a" StatusPermanentRedirect.
Proof.
  intros table r.
  assert (forall order, (forall pe, pe ∈ order -> pe ∈ table) ->
            ("/a", Examples.literal 1) ∈ order ->
            ServeHTTP (Examples.router table) order r
            = Redirect TrailingSlash "/a" StatusPermanentRedirect) as Hany.
  { intros order Hsub Hin.
    refine (slash_redirect_any_order (Examples.router table) order r "/a" _ _ _ _ _).
    - discriminate.
    - reflexivity.
    - right. reflexivity.
    - intros p e Hpe. apply Hsub in Hpe.
      apply elem_of_cons in Hpe as [[= -> ->]|Hpe];
        [|apply list_elem_of_singleton in Hpe as [= -> ->]].
      + split; [vm_compute; eexists; reflexivity|]. intros Hm. discriminate Hm.
      + split; [vm_compute; eexists; reflexivity|]. intros Hm. discriminate Hm.
    - exists "/a", (Examples.literal 1). split; [done|by left]. }
  split; apply Hany.
  - done.
  - apply list_elem_of_here.
  - intros pe Hpe. by apply elem_of_rev in Hpe.
  - apply elem_of_rev. apply list_elem_of_here.
Defined.
